(** * Question-array utilities: a shallow embedding and its properties

    The functions of the question-array module (getNonEmptyQuestions,
    findQuestion, removeQuestion, sumPoints, sumPublishedPoints, toCSV,
    sameType, renameQuestionById, changeQuestionTypeById, editOption,
    duplicateQuestionInArray) are embedded as functions over lists of a
    [Question] record.

    Conventions of the embedding:
    - a JavaScript [number] that holds an id, a point value or an index is
      an integer-valued double, written as the integer it equals ([Z]);
      where the source adds numbers, the sum is rounded as the addition of
      doubles rounds it, and where it prints one, the text is the one
      [String] gives for that double;
    - a JavaScript array is a [list], read with stdpp's lookup [!!];
    - [forEach] with an accumulator captured by the callback is
      [fold_left];
    - object spread with overridden fields is a record rebuilt field by
      field. *)

From Stdlib Require Import ZArith Ascii String DecimalString.
From stdpp Require Import base numbers list strings.

Local Open Scope Z_scope.

(** ** Data model *)

(** [QuestionType]: the union of the two string literals. *)
Inductive QuestionType : Set :=
  | multiple_choice_question
  | short_answer_question.

#[global] Instance QuestionType_eq_dec : EqDecision QuestionType.
Proof. solve_decision. Defined.

Record Question : Set := mkQuestion {
  id : Z;
  name : string;
  type : QuestionType;
  body : string;
  expected : string;
  options : list string;
  points : Z;
  published : bool
}.

#[global] Instance Question_eq_dec : EqDecision Question.
Proof. solve_decision. Defined.

(** ** Array primitives of the host language *)

Section Arrays.
Context {A : Type}.

(** [arr.findIndex(p)]: the index of the first element satisfying [p],
    or -1. *)
Definition findIndex (P : A → Prop) `{!∀ x, Decision (P x)}
    (arr : list A) : Z :=
  match list_find P arr with
  | Some (i, _) => Z.of_nat i
  | None => -1
  end.

(** [arr.find(p)]: the first element satisfying [p], or undefined. *)
Definition find (P : A → Prop) `{!∀ x, Decision (P x)}
    (arr : list A) : option A :=
  snd <$> list_find P arr.

(** [arr[i]] for an integer [i]: undefined outside [0, length). *)
Definition at_index (arr : list A) (i : Z) : option A :=
  if decide (i < 0) then None else arr !! Z.to_nat i.

(** Relative index of [slice]: a negative index counts from the end, and
    the result is clamped to [0, length]. *)
Definition relative_index (len : nat) (k : Z) : nat :=
  if decide (k < 0) then Z.to_nat (Z.max (Z.of_nat len + k) 0)
  else Z.to_nat (Z.min k (Z.of_nat len)).

(** [arr.slice(start, stop)]. *)
Definition slice (arr : list A) (start stop : Z) : list A :=
  let from := relative_index (length arr) start in
  let to := relative_index (length arr) stop in
  take (to - from)%nat (drop from arr).

(** [arr.slice(start)]. *)
Definition slice_from (arr : list A) (start : Z) : list A :=
  drop (relative_index (length arr) start) arr.

(** [arr[i] = v] on an array: replaces in range, extends by one at
    [i = length]; beyond that the array gets holes ([None]); a negative
    key is an ordinary property and leaves the elements as they are. *)
Definition array_set (arr : list A) (i : Z) (v : A) : option (list A) :=
  if decide (i < 0) then Some arr
  else if decide (i < Z.of_nat (length arr)) then Some (<[Z.to_nat i := v]> arr)
  else if decide (i = Z.of_nat (length arr)) then Some (arr ++ [v])
  else None.
End Arrays.

(** ** Numbers

    The value of an addition: integer-valued doubles, with the two
    infinities an overflowing addition gives. Finite operands never give
    NaN. *)
Inductive number : Set :=
  | Finite (z : Z)
  | PlusInfinity
  | MinusInfinity.

#[global] Instance number_eq_dec : EqDecision number.
Proof. solve_decision. Defined.

(** Round to nearest, ties to even: the quotient [q] of a magnitude by its
    unit in the last place, given the remainder [r] and half a unit. *)
Definition round_quotient (q r half : Z) : Z :=
  if decide (r < half) then q
  else if decide (half < r) then q + 1
  else if Z.even q then q else q + 1.

(** The nearest magnitude with at most 53 significant bits, the exponent
    being unbounded. Below 2^53 every integer is one. *)
Definition round_magnitude (a : Z) : Z :=
  if decide (a < 2 ^ 53) then a
  else
    let e := Z.log2 a - 52 in
    round_quotient (a / 2 ^ e) (a mod 2 ^ e) (2 ^ (e - 1)) * 2 ^ e.

(** The least rounded magnitude that is no double any more. *)
Definition overflow_bound : Z := 2 ^ 1024.

(** The double nearest to an integer, or the infinity of its sign. *)
Definition round_double (x : Z) : number :=
  let m := round_magnitude (Z.abs x) in
  if decide (overflow_bound ≤ m)
  then (if decide (x < 0) then MinusInfinity else PlusInfinity)
  else Finite (Z.sgn x * m).

(** [total + p] for an accumulated [total] and a finite [p]: the exact sum,
    rounded once. *)
Definition number_add (total : number) (p : Z) : number :=
  match total with
  | Finite z => round_double (z + p)
  | PlusInfinity => PlusInfinity
  | MinusInfinity => MinusInfinity
  end.

(** [a <= b] *)
Definition number_le (a b : number) : Prop :=
  match a, b with
  | MinusInfinity, _ => True
  | _, PlusInfinity => True
  | Finite x, Finite y => x ≤ y
  | _, _ => False
  end.

(** ** Printing a number

    [String(x)] and [x + ""] follow Number::toString: with [s] the shortest
    run of digits, [k] its length and [n] the position of the decimal
    point such that [s * 10^(n-k)] rounds to [x], an integer prints as the
    digits of [s] followed by [n - k] zeros when [n] is at most 21, and
    in exponent notation beyond. *)

(** The decimal digits of a non-negative integer. *)
Definition decimal (n : Z) : string := NilZero.string_of_int (Z.to_int n).

Definition zeros (n : Z) : string :=
  string_of_list_ascii (repeat "0"%char (Z.to_nat n)).

(** The run of [k] digits that, followed by [d - k] zeros, rounds to [x],
    if there is one; of two, the one nearer to [x]. *)
Definition digits_candidate (x d k : Z) : option Z :=
  let scale := 10 ^ (d - k) in
  let lo := x / scale in
  let hi := lo + 1 in
  let ok := λ s, bool_decide (10 ^ (k - 1) ≤ s < 10 ^ k) &&
                 bool_decide (round_double (s * scale) = Finite x) in
  if ok lo && ok hi
  then Some (if bool_decide (x - lo * scale ≤ hi * scale - x) then lo else hi)
  else if ok lo then Some lo
  else if ok hi then Some hi
  else None.

(** The shortest run of digits for [x], which has [d] decimal digits,
    trying the lengths from [k] on; 17 digits always suffice. *)
Fixpoint shortest_digits (fuel : nat) (x d k : Z) : Z * Z :=
  match fuel with
  | O => (x, d)
  | S fuel' =>
      if decide (d < k) then (x, d)
      else match digits_candidate x d k with
           | Some s => (s, k)
           | None => shortest_digits fuel' x d (k + 1)
           end
  end.

(** [String(x)] for a positive integer-valued double [x]. When the power
    of ten just above [x] rounds to [x], the digits are those of that
    power. *)
Definition String_of_positive (x : Z) : string :=
  let d := Z.of_nat (String.length (decimal x)) in
  let '(n, (s, k)) :=
    if bool_decide (round_double (10 ^ d) = Finite x) then (d + 1, (1, 1))
    else (d, shortest_digits 17 x d 1) in
  if decide (n ≤ 21) then decimal s +:+ zeros (n - k)
  else
    match decimal s with
    | String c EmptyString => String c EmptyString +:+ "e+" +:+ decimal (n - 1)
    | String c rest => String c ("." +:+ rest) +:+ "e+" +:+ decimal (n - 1)
    | EmptyString => EmptyString
    end.

(** [String(n)] for an integer [n]. An integer that is no double stands
    for the double nearest to it. *)
Definition String_of_number (n : Z) : string :=
  match round_double n with
  | Finite x =>
      if decide (x = 0) then "0"
      else if decide (x < 0) then "-" +:+ String_of_positive (- x)
      else String_of_positive x
  | PlusInfinity => "Infinity"
  | MinusInfinity => "-Infinity"
  end.

(** [String(b)] for a boolean. *)
Definition String_of_boolean (b : bool) : string :=
  if b then "true"%string else "false"%string.

(** The line break written "\n" in the source. *)
Definition newline : string := String "010"%char EmptyString.

(** ** Object spread with overridden fields *)

(** [{ ...q, name: n }] *)
Definition with_name (q : Question) (n : string) : Question :=
  {| id := id q; name := n; type := type q; body := body q;
     expected := expected q; options := options q; points := points q;
     published := published q |}.

(** [{ ...q, type: t }] *)
Definition with_type (q : Question) (t : QuestionType) : Question :=
  {| id := id q; name := name q; type := t; body := body q;
     expected := expected q; options := options q; points := points q;
     published := published q |}.

(** [{ ...q, options: os }] *)
Definition with_options (q : Question) (os : list string) : Question :=
  {| id := id q; name := name q; type := type q; body := body q;
     expected := expected q; options := os; points := points q;
     published := published q |}.

(** What an id-targeted update produces. When no element has the target
    id, [findIndex] gives -1 and [questions[-1]] is undefined: reading a
    property of it throws a TypeError, and spreading it yields an object
    without the fields of a Question, so the array returned is not an
    array of questions. *)
Inductive outcome : Set :=
  | Returns (questions : list Question)
  | ThrowsTypeError
  | ReturnsMalformed.

(** ** Selection *)

(** [getNonEmptyQuestions]: keep a question when its body, its expected or
    its options has non-zero length. *)
Definition getNonEmptyQuestions (questions : list Question) : list Question :=
  filter
    (λ question,
       String.length (body question) ≠ 0%nat ∨
       String.length (expected question) ≠ 0%nat ∨
       length (options question) ≠ 0%nat)
    questions.

(** [findQuestion]: [questions.find(...) || null]. An object is truthy, so
    a found question is returned as it is; undefined becomes null
    ([None]). *)
Definition findQuestion (questions : list Question) (id0 : Z)
    : option Question :=
  match find (λ question, id question = id0) questions with
  | Some question => Some question
  | None => None
  end.

(** [removeQuestion]: keep the questions whose id differs. *)
Definition removeQuestion (questions : list Question) (id0 : Z)
    : list Question :=
  filter (λ question, id question ≠ id0) questions.

(** ** Aggregation *)

(** [sumPoints]: forEach accumulating [total += question.points], from
    [total = 0]. *)
Definition sumPoints (questions : list Question) : number :=
  fold_left (λ total question, number_add total (points question))
    questions (Finite 0).

(** [sumPublishedPoints]: forEach accumulating the points of the published
    questions only. *)
Definition sumPublishedPoints (questions : list Question) : number :=
  fold_left
    (λ total question,
       if published question then number_add total (points question)
       else total)
    questions (Finite 0).

(** ** Serialization *)

(** [toCSV]: the header, then for each question [csv += "\n" + ...]. The
    right-hand side is built left to right, as the source's chain of [+]
    is. *)
Definition toCSV (questions : list Question) : string :=
  fold_left
    (λ csv question,
       csv +:+
       (((((((((newline +:+ String_of_number (id question)) +:+ ",") +:+
             name question) +:+ ",") +:+
           String_of_number (Z.of_nat (length (options question)))) +:+ ",") +:+
         String_of_number (points question)) +:+ ",") +:+
        String_of_boolean (published question)))
    questions "id,name,options,points,published"%string.

(** ** Homogeneity *)

(** [sameType]: true on the empty array; otherwise [currentType] is the
    type of [questions[0]] and forEach clears [isSame] at the first
    element of another type. *)
Definition sameType (questions : list Question) : bool :=
  match questions with
  | [] => true
  | first :: _ =>
      let currentType := type first in
      fold_left
        (λ isSame question,
           if bool_decide (type question ≠ currentType) && isSame
           then false else isSame)
        questions true
  end.

(** ** Updates targeted by id *)

(** [renameQuestionById]. With no match the array returned holds the
    object [{ name: newName }]. *)
Definition renameQuestionById (questions : list Question) (targetId : Z)
    (newName : string) : outcome :=
  let foundQuestion := findIndex (λ question, id question = targetId) questions in
  let foundQuestionData := at_index questions foundQuestion in
  let firstHalf := slice questions 0 foundQuestion in
  match foundQuestionData with
  | None => ReturnsMalformed
  | Some data =>
      let firstHalf := firstHalf ++ [with_name data newName] in
      let secondHalf := slice_from questions (foundQuestion + 1) in
      Returns (firstHalf ++ secondHalf)
  end.

(** [changeQuestionTypeById]. With no match, [foundQuestionData.type]
    throws. *)
Definition changeQuestionTypeById (questions : list Question) (targetId : Z)
    (newQuestionType : QuestionType) : outcome :=
  let foundQuestion := findIndex (λ question, id question = targetId) questions in
  let foundQuestionData := at_index questions foundQuestion in
  let firstHalf := slice questions 0 foundQuestion in
  match foundQuestionData with
  | None => ThrowsTypeError
  | Some data =>
      let firstHalf :=
        if decide (type data = multiple_choice_question ∧
                   type data ≠ newQuestionType)
        then firstHalf ++ [with_options (with_type data newQuestionType) []]
        else firstHalf ++ [with_type data newQuestionType] in
      let secondHalf := slice_from questions (foundQuestion + 1) in
      Returns (firstHalf ++ secondHalf)
  end.

(** [editOption]. With no match, [foundQuestionData.options] throws in
    either branch. In the second branch the copy of the target is pushed
    with a copy of its options, and the assignment
    [firstHalf[foundQuestion].options[targetOptionIndex] = newOption] then
    writes into that copy. *)
Definition editOption (questions : list Question) (targetId : Z)
    (targetOptionIndex : Z) (newOption : string) : outcome :=
  let foundQuestion := findIndex (λ question, id question = targetId) questions in
  let foundQuestionData := at_index questions foundQuestion in
  let firstHalf := slice questions 0 foundQuestion in
  match foundQuestionData with
  | None => ThrowsTypeError
  | Some data =>
      let secondHalf := slice_from questions (foundQuestion + 1) in
      if decide (targetOptionIndex = -1) then
        let firstHalf :=
          firstHalf ++ [with_options data (options data ++ [newOption])] in
        Returns (firstHalf ++ secondHalf)
      else
        let firstHalf := firstHalf ++ [with_options data (options data)] in
        match at_index firstHalf foundQuestion with
        | None => ThrowsTypeError
        | Some pushed =>
            match array_set (options pushed) targetOptionIndex newOption with
            | None => ReturnsMalformed
            | Some os =>
                let firstHalf :=
                  <[Z.to_nat foundQuestion := with_options pushed os]> firstHalf in
                Returns (firstHalf ++ secondHalf)
            end
        end
  end.

(** Modelled from the spec: [duplicateQuestion] of objects.ts, which is not
    among the sources. The spec says of the duplicate that it has the
    supplied new id and is identical to the original in every other
    field. *)
Definition duplicateQuestion (newId : Z) (oldQuestion : Question) : Question :=
  {| id := newId; name := name oldQuestion; type := type oldQuestion;
     body := body oldQuestion; expected := expected oldQuestion;
     options := options oldQuestion; points := points oldQuestion;
     published := published oldQuestion |}.

(** [duplicateQuestionInArray]. With no match the array returned holds the
    empty object [{}]. *)
Definition duplicateQuestionInArray (questions : list Question)
    (targetId newId : Z) : outcome :=
  let foundQuestion := findIndex (λ question, id question = targetId) questions in
  let foundQuestionData := at_index questions foundQuestion in
  let firstHalf := slice questions 0 foundQuestion in
  match foundQuestionData with
  | None => ReturnsMalformed
  | Some data =>
      let firstHalf := firstHalf ++ [data; duplicateQuestion newId data] in
      let secondHalf := slice_from questions (foundQuestion + 1) in
      Returns (firstHalf ++ secondHalf)
  end.

(** ** Vocabulary of the properties *)

(** Exactly one question of the array has the given id. *)
Definition exactly_one (questions : list Question) (targetId : Z) : Prop :=
  length (filter (λ question, id question = targetId) questions) = 1%nat.

(** Two arrays of the same length that agree at every index but [k]. *)
Definition differ_only_at {A} (k : nat) (before after : list A) : Prop :=
  length after = length before ∧
  ∀ j, j ≠ k → after !! j = before !! j.

(** Insertion of [x] at position [k], as [splice(k, 0, x)] does. *)
Definition insert_at {A} (k : nat) (x : A) (arr : list A) : list A :=
  take k arr ++ x :: drop k arr.

(** One line of the table, as the spec describes it: id, name, number of
    options, points and published flag, separated by commas, the flag as
    the text true or false. *)
Definition csv_row (q : Question) : string :=
  String_of_number (id q) +:+ "," +:+ name q +:+ "," +:+
  String_of_number (Z.of_nat (length (options q))) +:+ "," +:+
  String_of_number (points q) +:+ "," +:+
  (if published q then "true" else "false").

(** The table as the spec describes it: the header line, then one line per
    question, each line after the first starting on a new line (the line
    feed character, code 10). *)
Definition csv_table (questions : list Question) : string :=
  String.concat (String (ascii_of_nat 10) EmptyString)
    ("id,name,options,points,published"%string :: map csv_row questions).

(** A question the spec calls empty. *)
Definition is_empty_question (q : Question) : Prop :=
  body q = ""%string ∧ expected q = ""%string ∧ options q = [].

#[global] Instance is_empty_question_dec (q : Question) :
  Decision (is_empty_question q).
Proof. unfold is_empty_question. apply _. Defined.

(** The relation between the two sums as the spec words it, for one
    array. *)
Definition published_sum_law (qs : list Question) : Prop :=
  number_le (sumPublishedPoints qs) (sumPoints qs) ∧
  (sumPublishedPoints qs = sumPoints qs ↔
   Forall (λ q, published q = true) qs).

(** The sums of the points as exact integers, and the sum of their
    absolute values: while the latter is at most 2^53, no addition of
    [sumPoints] or [sumPublishedPoints] rounds. *)
Definition exact_points (qs : list Question) : Z :=
  foldr (λ q s, points q + s) 0 qs.

Definition exact_published_points (qs : list Question) : Z :=
  foldr (λ q s, (if published q then points q else 0) + s) 0 qs.

Definition points_magnitude (qs : list Question) : Z :=
  foldr (λ q s, Z.abs (points q) + s) 0 qs.

(** A number that an addition returned, or the initial 0: rounding leaves
    it as it is. *)
Definition settled (n : number) : Prop :=
  match n with
  | Finite z => round_double z = Finite z
  | _ => True
  end.

(** [q'] has every field of [q], except possibly the one named. *)
Definition same_but_name (q q' : Question) : Prop :=
  id q' = id q ∧ type q' = type q ∧ body q' = body q ∧
  expected q' = expected q ∧ options q' = options q ∧
  points q' = points q ∧ published q' = published q.

Definition same_but_id (q q' : Question) : Prop :=
  name q' = name q ∧ type q' = type q ∧ body q' = body q ∧
  expected q' = expected q ∧ options q' = options q ∧
  points q' = points q ∧ published q' = published q.

Definition same_but_options (q q' : Question) : Prop :=
  id q' = id q ∧ name q' = name q ∧ type q' = type q ∧ body q' = body q ∧
  expected q' = expected q ∧ points q' = points q ∧
  published q' = published q.

Definition same_but_type_and_options (q q' : Question) : Prop :=
  id q' = id q ∧ name q' = name q ∧ body q' = body q ∧
  expected q' = expected q ∧ points q' = points q ∧
  published q' = published q.

(** A type change that moves a question away from the type that uses
    options. *)
Definition leaves_multiple_choice (old new : QuestionType) : Prop :=
  old = multiple_choice_question ∧ new ≠ old.

(** ** Sample data *)

Definition q_addition : Question :=
  mkQuestion 1 "Addition" short_answer_question "" "" [] 1 true.
Definition q_letters : Question :=
  mkQuestion 2 "Letters" short_answer_question "What is the last letter?" "Z" [] 1 false.
Definition q_colors : Question :=
  mkQuestion 5 "Colors" multiple_choice_question "Which is a color?" "red"
    ["red"; "apple"; "firetruck"]%string 1 true.
Definition q_blank : Question :=
  mkQuestion 47 "My New Question" multiple_choice_question "" "" [] 1 false.
Definition sample : list Question := [q_addition; q_letters; q_colors; q_blank].

(** ** Further functions of the question-array module *)

(** [{ ...q, published: b }] *)
Definition with_published (q : Question) (b : bool) : Question :=
  {| id := id q; name := name q; type := type q; body := body q;
     expected := expected q; options := options q; points := points q;
     published := b |}.

(** [getPublishedQuestions]: keep the questions whose [published] is
    true. *)
Definition getPublishedQuestions (questions : list Question)
    : list Question :=
  filter (λ question, published question = true) questions.

(** [getNames]: forEach accumulating [names = [...names, question.name]]. *)
Definition getNames (questions : list Question) : list string :=
  fold_left (λ names question, names ++ [name question]) questions [].

(** Modelled from the spec: the [Answer] interface of interfaces/answer.ts,
    which is not among the sources; the spec lists its fields as
    questionId, text, submitted and correct, the ones [makeAnswers]
    writes. *)
Record Answer : Set := mkAnswer {
  questionId : Z;
  text : string;
  submitted : bool;
  correct : bool
}.

(** [makeAnswers]: forEach accumulating one answer per question. *)
Definition makeAnswers (questions : list Question) : list Answer :=
  fold_left
    (λ answers question,
       answers ++
       [{| questionId := id question; text := ""; submitted := false;
           correct := false |}])
    questions [].

(** [publishAll]: map each question to [{ ...question, published: true }]. *)
Definition publishAll (questions : list Question) : list Question :=
  map (λ question, with_published question true) questions.

(** [q'] has every field of [q], except possibly [published]. *)
Definition same_but_published (q q' : Question) : Prop :=
  id q' = id q ∧ name q' = name q ∧ type q' = type q ∧ body q' = body q ∧
  expected q' = expected q ∧ options q' = options q ∧
  points q' = points q.

(** The answer [makeAnswers] derives from a question. *)
Definition blank_answer (q : Question) : Answer :=
  {| questionId := id q; text := ""; submitted := false; correct := false |}.

(** An update returned an array in which [findQuestion] finds [q'] under
    the target id and, under any other id, what it found in [qs]; the ids
    are those of [qs], in the same order. *)
Definition updated_target (qs : list Question) (targetId : Z)
    (result : outcome) (q' : Question) : Prop :=
  ∃ qs', result = Returns qs' ∧
    findQuestion qs' targetId = Some q' ∧
    (∀ j, j ≠ targetId → findQuestion qs' j = findQuestion qs j) ∧
    id <$> qs' = id <$> qs.

(** An update returned an array with the point sums of [qs]. *)
Definition kept_sums (qs : list Question) (result : outcome) : Prop :=
  ∃ qs', result = Returns qs' ∧
    sumPoints qs' = sumPoints qs ∧
    sumPublishedPoints qs' = sumPublishedPoints qs.

(** Two questions that [toCSV] cannot tell apart. *)
Definition same_csv_fields (a b : Question) : Prop :=
  id a = id b ∧ name a = name b ∧
  length (options a) = length (options b) ∧
  points a = points b ∧ published a = published b.

(** Two questions with the target id. *)
Definition twins : list Question :=
  [mkQuestion 1 "Addition" short_answer_question "" "" [] 1 true;
   mkQuestion 5 "Colors" multiple_choice_question "Which is a color?" "red"
     ["red"; "apple"; "firetruck"] 1 true;
   mkQuestion 5 "Twin" multiple_choice_question "Which is a color?" "red"
     ["red"; "apple"; "firetruck"] 1 true].

(** ** The holiday cycler *)

Inductive Holiday : Set :=
  | Christmas
  | Easter
  | Halloween
  | New_Year
  | Thanksgiving.

#[global] Instance Holiday_eq_dec : EqDecision Holiday.
Proof. solve_decision. Defined.

(** [holidayEmojis]: the record from holidays to emojis, here as the bytes
    of their UTF-8 encoding. *)
Definition holidayEmojis (h : Holiday) : string :=
  match h with
  | Christmas => "🎄"
  | Easter => "🐰"
  | Halloween => "🎃"
  | New_Year => "🎆"
  | Thanksgiving => "🦃"
  end.

Definition alphabeticalOrder : list Holiday :=
  [Christmas; Easter; Halloween; New_Year; Thanksgiving].

Definition yearOrder : list Holiday :=
  [New_Year; Easter; Halloween; Thanksgiving; Christmas].

(** [arr.indexOf(x)]: the first index holding [x], or -1. *)
Definition indexOf {A} `{EqDecision A} (arr : list A) (x : A) : Z :=
  findIndex (λ y, y = x) arr.

(** [a % b] on integers: NaN ([None]) when [b] is zero, otherwise the
    remainder with the sign of [a]. *)
Definition remainder (a b : Z) : option Z :=
  if decide (b = 0) then None else Some (Z.rem a b).

(** [getNextHoliday]: [order[(order.indexOf(current) + 1) % order.length]].
    Indexing with NaN gives undefined. *)
Definition getNextHoliday (current : Holiday) (order : list Holiday)
    : option Holiday :=
  let index := indexOf order current in
  match remainder (index + 1) (Z.of_nat (length order)) with
  | None => None
  | Some i => at_index order i
  end.

(** The two buttons of the component, and the holiday each click passes
    to [setCurrentHoliday]. *)
Inductive HolidayButton : Set :=
  | AdvanceByAlphabet
  | AdvanceByYear.

Definition CycleHoliday_initial : Holiday := New_Year.

Definition CycleHoliday_click (currentHoliday : Holiday) (b : HolidayButton)
    : option Holiday :=
  match b with
  | AdvanceByAlphabet => getNextHoliday currentHoliday alphabeticalOrder
  | AdvanceByYear => getNextHoliday currentHoliday yearOrder
  end.

(** [n] successive uses of [getNextHoliday] with the same order. *)
Fixpoint advance (n : nat) (order : list Holiday) (h : Holiday)
    : option Holiday :=
  match n with
  | O => Some h
  | S n' =>
      match getNextHoliday h order with
      | Some h' => advance n' order h'
      | None => None
      end
  end.

(** A sequence of clicks, from a given holiday. *)
Fixpoint CycleHoliday_clicks (h : Holiday) (bs : list HolidayButton)
    : option Holiday :=
  match bs with
  | [] => Some h
  | b :: bs' =>
      match CycleHoliday_click h b with
      | Some h' => CycleHoliday_clicks h' bs'
      | None => None
      end
  end.

(** ** The two dice *)

(** The two pieces of state of [TwoDice]. *)
Record TwoDiceState : Set := mkTwoDice {
  dice1 : Z;
  dice2 : Z
}.

Definition TwoDice_initial : TwoDiceState := {| dice1 := 1; dice2 := 2 |}.

(** [resultMessage], computed at each render. *)
Definition resultMessage (s : TwoDiceState) : string :=
  if decide (dice1 s = dice2 s)
  then (if decide (dice1 s = 1) then "Lose" else "Win")
  else "".

(** [{resultMessage && <p>...</p>}]: the paragraph is rendered when the
    message is a non-empty string. *)
Definition message_rendered (s : TwoDiceState) : bool :=
  bool_decide (String.length (resultMessage s) ≠ 0%nat).

Inductive TwoDiceButton : Set :=
  | RollLeft
  | RollRight.

(** A click, given the value [d6()] returned. *)
Definition TwoDice_click (s : TwoDiceState) (b : TwoDiceButton) (rolled : Z)
    : TwoDiceState :=
  match b with
  | RollLeft => {| dice1 := rolled; dice2 := dice2 s |}
  | RollRight => {| dice1 := dice1 s; dice2 := rolled |}
  end.

(** ** The shove box *)

Definition ShoveBox_initial : Z := 10.

(** The click handler of [ShoveBoxButton]: [setPosition(4 + position)]. *)
Definition ShoveBoxButton_click (position : Z) : Z := 4 + position.

(** The [marginLeft] style of [MoveableBox]: [position + "px"]. *)
Definition marginLeft (position : Z) : string :=
  String_of_number position +:+ "px".

(** * Properties *)

Example sumPoints_ex :
  sumPoints [mkQuestion 1 "a" short_answer_question "" "" [] 3 true;
             mkQuestion 2 "b" short_answer_question "" "" [] 4 false] =
  Finite 7.
Proof. reflexivity. Qed.

Example toCSV_sample :
  toCSV [q_addition; q_colors] =
  ("id,name,options,points,published" +:+ newline +:+ "1,Addition,0,1,true"
   +:+ newline +:+ "5,Colors,3,1,true")%string.
Proof. reflexivity. Qed.

Example rename_sample :
  renameQuestionById sample 5 "Hues" =
  Returns [q_addition; q_letters; with_name q_colors "Hues"; q_blank].
Proof. reflexivity. Qed.

Example rename_absent :
  renameQuestionById sample 6 "Hues" = ReturnsMalformed.
Proof. reflexivity. Qed.

Example editOption_sample :
  editOption sample 5 1 "blue" =
  Returns [q_addition; q_letters;
           with_options q_colors ["red"; "blue"; "firetruck"]%string; q_blank].
Proof. reflexivity. Qed.

Example editOption_append :
  editOption sample 5 (-1) "blue" =
  Returns [q_addition; q_letters;
           with_options q_colors ["red"; "apple"; "firetruck"; "blue"]%string; q_blank].
Proof. reflexivity. Qed.

Example duplicate_sample :
  duplicateQuestionInArray sample 2 9 =
  Returns [q_addition; q_letters; duplicateQuestion 9 q_letters; q_colors; q_blank].
Proof. reflexivity. Qed.

Example sameType_sample : sameType sample = false ∧ sameType [q_colors; q_blank] = true.
Proof. split; reflexivity. Qed.

(** ** Locating the target *)

Section Locate.
Context {A : Type} (P : A → Prop) `{!∀ x, Decision (P x)}.

Lemma filter_nil_Forall (l : list A) :
  filter P l = [] → Forall (λ x, ¬ P x) l.
Proof.
  induction l as [|x l IH]; [constructor|].
  rewrite filter_cons. case_decide; [discriminate|].
  intros Hnil. constructor; auto.
Qed.

(** When a single element satisfies [P], no element before or after it
    does. *)
Lemma single_match_split (l : list A) (k : nat) (x : A) :
  length (filter P l) = 1%nat → l !! k = Some x → P x →
  Forall (λ y, ¬ P y) (take k l) ∧ Forall (λ y, ¬ P y) (drop (S k) l).
Proof.
  intros Hone Hk HP.
  rewrite <- (take_drop_middle l k x Hk) in Hone.
  rewrite filter_app, filter_cons_True, length_app in Hone by done.
  simpl in Hone.
  split; apply filter_nil_Forall, nil_length_inv; lia.
Qed.

Lemma single_match_find (l : list A) (k : nat) (x : A) :
  length (filter P l) = 1%nat → l !! k = Some x → P x →
  list_find P l = Some (k, x).
Proof.
  intros Hone Hk HP.
  destruct (single_match_split l k x Hone Hk HP) as [Hbefore _].
  apply list_find_Some. split_and!; [done..|].
  intros j y Hj Hlt.
  rewrite Forall_lookup in Hbefore. apply (Hbefore j).
  by rewrite lookup_take_lt.
Qed.

Lemma findIndex_found (l : list A) (k : nat) (x : A) :
  list_find P l = Some (k, x) → findIndex P l = Z.of_nat k.
Proof. intros Hfind. unfold findIndex. by rewrite Hfind. Qed.

Lemma findIndex_absent (l : list A) :
  list_find P l = None → findIndex P l = -1.
Proof. intros Hfind. unfold findIndex. by rewrite Hfind. Qed.
End Locate.

Section Slices.
Context {A : Type}.
Implicit Types (l : list A) (k : nat).

Lemma at_index_of_nat l k : at_index l (Z.of_nat k) = l !! k.
Proof.
  unfold at_index. case_decide; [lia|]. by rewrite Nat2Z.id.
Qed.

Lemma relative_index_in_range len k :
  (k ≤ len)%nat → relative_index len (Z.of_nat k) = k.
Proof.
  intros Hle. unfold relative_index. case_decide; lia.
Qed.

Lemma slice_prefix l k :
  (k ≤ length l)%nat → slice l 0 (Z.of_nat k) = take k l.
Proof.
  intros Hle. unfold slice.
  rewrite (relative_index_in_range _ k) by done.
  change 0 with (Z.of_nat 0). rewrite relative_index_in_range by lia.
  by rewrite drop_0, Nat.sub_0_r.
Qed.

Lemma slice_from_succ l k :
  (k < length l)%nat → slice_from l (Z.of_nat k + 1) = drop (S k) l.
Proof.
  intros Hlt. unfold slice_from.
  replace (Z.of_nat k + 1) with (Z.of_nat (S k)) by lia.
  by rewrite relative_index_in_range by lia.
Qed.

(** Rebuilding an array around position [k] is an update at [k]. *)
Lemma rebuild_is_insert l k (x y : A) :
  l !! k = Some x → take k l ++ y :: drop (S k) l = <[k := y]> l.
Proof.
  intros Hk. rewrite <- (take_drop_middle l k x Hk) at 3.
  rewrite insert_app_r_alt by (rewrite length_take; lia).
  apply lookup_lt_Some in Hk.
  rewrite length_take, Nat.min_l, Nat.sub_diag by lia. done.
Qed.

Lemma differ_only_at_insert l k (y : A) : differ_only_at k l (<[k := y]> l).
Proof.
  split; [apply length_insert|].
  intros j Hne. by apply list_lookup_insert_ne.
Qed.
End Slices.

(** ** Rounding of sums *)

Lemma round_quotient_bounds (q r half : Z) :
  q ≤ round_quotient q r half ≤ q + 1.
Proof. unfold round_quotient. repeat case_decide; try destruct (Z.even q); lia. Qed.

Lemma round_quotient_mono (q r r' half : Z) :
  r ≤ r' → round_quotient q r half ≤ round_quotient q r' half.
Proof.
  intros Hr. unfold round_quotient.
  repeat case_decide; try destruct (Z.even q); lia.
Qed.

Lemma binade (a : Z) :
  2 ^ 53 ≤ a →
  1 ≤ Z.log2 a - 52 ∧
  2 ^ 52 * 2 ^ (Z.log2 a - 52) ≤ a < 2 ^ 53 * 2 ^ (Z.log2 a - 52).
Proof.
  intros Ha.
  assert (Hpos : 0 < a) by (pose proof (Z.pow_pos_nonneg 2 53); lia).
  assert (H53 : 53 ≤ Z.log2 a).
  { rewrite <- (Z.log2_pow2 53) by lia. by apply Z.log2_le_mono. }
  destruct (Z.log2_spec a Hpos) as [Hlo Hhi].
  split; [lia|].
  rewrite <- !Z.pow_add_r by lia.
  replace (52 + (Z.log2 a - 52)) with (Z.log2 a) by lia.
  replace (53 + (Z.log2 a - 52)) with (Z.succ (Z.log2 a)) by lia.
  done.
Qed.

Lemma quotient_range (a P : Z) :
  0 < P → 2 ^ 52 * P ≤ a < 2 ^ 53 * P → 2 ^ 52 ≤ a / P < 2 ^ 53.
Proof.
  intros HP [Hlo Hhi]. split.
  - apply Z.div_le_lower_bound; lia.
  - apply Z.div_lt_upper_bound; lia.
Qed.

Lemma round_magnitude_small (a : Z) : a < 2 ^ 53 → round_magnitude a = a.
Proof. intros Ha. unfold round_magnitude. by rewrite decide_True. Qed.

Lemma round_magnitude_large (a : Z) :
  2 ^ 53 ≤ a →
  let P := 2 ^ (Z.log2 a - 52) in
  2 ^ 52 * P ≤ round_magnitude a ≤ 2 ^ 53 * P.
Proof.
  intros Ha P. destruct (binade a Ha) as [He Hrange]. fold P in Hrange.
  assert (HP : 0 < P) by (apply Z.pow_pos_nonneg; lia).
  unfold round_magnitude. rewrite decide_False by lia. fold P.
  pose proof (quotient_range a P HP Hrange) as Hq.
  pose proof (round_quotient_bounds (a / P) (a mod P) (2 ^ (Z.log2 a - 52 - 1))).
  split; apply Z.mul_le_mono_nonneg_r; lia.
Qed.

Lemma round_magnitude_mono (a b : Z) :
  0 ≤ a → a ≤ b → round_magnitude a ≤ round_magnitude b.
Proof.
  intros Ha Hab.
  destruct (decide (b < 2 ^ 53)) as [Hb|Hb].
  { rewrite !round_magnitude_small by lia. done. }
  assert (Hb' : 2 ^ 53 ≤ b) by lia.
  pose proof (round_magnitude_large b Hb') as Hrb. simpl in Hrb.
  destruct (binade b Hb') as [Heb Hbrange].
  set (eb := Z.log2 b - 52) in *.
  assert (HPb : 0 < 2 ^ eb) by (apply Z.pow_pos_nonneg; lia).
  destruct (decide (a < 2 ^ 53)) as [Hsmall|Hlarge].
  { rewrite (round_magnitude_small a) by done.
    assert (2 ≤ 2 ^ eb).
    { change 2 with (2 ^ 1) at 1. apply Z.pow_le_mono_r; lia. }
    nia. }
  assert (Ha' : 2 ^ 53 ≤ a) by lia.
  pose proof (round_magnitude_large a Ha') as Hra. simpl in Hra.
  destruct (binade a Ha') as [Hea Harange].
  set (ea := Z.log2 a - 52) in *.
  assert (HPa : 0 < 2 ^ ea) by (apply Z.pow_pos_nonneg; lia).
  assert (Hle : ea ≤ eb).
  { unfold ea, eb. assert (Z.log2 a ≤ Z.log2 b) by (apply Z.log2_le_mono; lia).
    lia. }
  destruct (decide (ea = eb)) as [Heq|Hne].
  - unfold round_magnitude. rewrite !decide_False by lia.
    fold ea eb. rewrite Heq.
    apply Z.mul_le_mono_nonneg_r; [lia|].
    assert (Hq : a / 2 ^ eb ≤ b / 2 ^ eb) by (apply Z.div_le_mono; lia).
    destruct (decide (a / 2 ^ eb = b / 2 ^ eb)) as [Hsame|Hdiff].
    + rewrite Hsame. apply round_quotient_mono.
      pose proof (Z.div_mod a (2 ^ eb)). pose proof (Z.div_mod b (2 ^ eb)).
      rewrite Heq in *. nia.
    + pose proof (round_quotient_bounds (a / 2 ^ eb) (a mod 2 ^ eb) (2 ^ (eb - 1))).
      pose proof (round_quotient_bounds (b / 2 ^ eb) (b mod 2 ^ eb) (2 ^ (eb - 1))).
      lia.
  - assert (Hstep : 2 * 2 ^ ea ≤ 2 ^ eb).
    { replace (2 * 2 ^ ea) with (2 ^ (ea + 1)) by (rewrite Z.pow_add_r; lia).
      apply Z.pow_le_mono_r; lia. }
    nia.
Qed.

Lemma round_magnitude_grid (c e : Z) :
  1 ≤ e → 2 ^ 52 ≤ c < 2 ^ 53 → round_magnitude (c * 2 ^ e) = c * 2 ^ e.
Proof.
  intros He Hc.
  assert (HP : 0 < 2 ^ e) by (apply Z.pow_pos_nonneg; lia).
  assert (H2 : 2 ≤ 2 ^ e).
  { change 2 with (2 ^ 1) at 1. apply Z.pow_le_mono_r; lia. }
  assert (Hlog : Z.log2 (c * 2 ^ e) = 52 + e).
  { apply Z.log2_unique; [lia|].
    replace (Z.succ (52 + e)) with (53 + e) by lia.
    rewrite !Z.pow_add_r by lia. nia. }
  unfold round_magnitude. rewrite decide_False by nia.
  rewrite Hlog. replace (52 + e - 52) with e by lia.
  rewrite Z.div_mul, Z.mod_mul by lia.
  unfold round_quotient.
  by rewrite decide_True by (apply Z.pow_pos_nonneg; lia).
Qed.

Lemma round_magnitude_idem (a : Z) :
  0 ≤ a → round_magnitude (round_magnitude a) = round_magnitude a.
Proof.
  intros Ha. destruct (decide (a < 2 ^ 53)) as [Hsmall|Hlarge].
  { rewrite (round_magnitude_small a) by done.
    by apply round_magnitude_small. }
  destruct (binade a) as [He Hrange]; [lia|].
  set (e := Z.log2 a - 52) in *.
  assert (HP : 0 < 2 ^ e) by (apply Z.pow_pos_nonneg; lia).
  pose proof (quotient_range a (2 ^ e) HP Hrange) as Hq.
  pose proof (round_quotient_bounds (a / 2 ^ e) (a mod 2 ^ e) (2 ^ (e - 1)))
    as Hq'.
  unfold round_magnitude at 2. unfold round_magnitude at 2.
  rewrite decide_False by lia. fold e.
  set (q' := round_quotient (a / 2 ^ e) (a mod 2 ^ e) (2 ^ (e - 1))) in *.
  destruct (decide (q' < 2 ^ 53)) as [Hin|Hout].
  - apply round_magnitude_grid; lia.
  - assert (Hq53 : q' = 2 ^ 53) by lia.
    replace (q' * 2 ^ e) with (2 ^ 52 * 2 ^ (e + 1)).
    + apply round_magnitude_grid; lia.
    + rewrite Hq53, Z.pow_add_r by lia. lia.
Qed.

Lemma round_magnitude_nonneg (a : Z) : 0 ≤ a → 0 ≤ round_magnitude a.
Proof.
  intros Ha. destruct (decide (a < 2 ^ 53)) as [Hsmall|Hlarge].
  - by rewrite round_magnitude_small.
  - pose proof (round_magnitude_large a) as Hr. simpl in Hr.
    assert (0 < 2 ^ (Z.log2 a - 52)).
    { apply Z.pow_pos_nonneg; [lia|]. destruct (binade a); lia. }
    nia.
Qed.

Lemma round_magnitude_exact (a : Z) : a ≤ 2 ^ 53 → round_magnitude a = a.
Proof.
  intros Ha. destruct (decide (a < 2 ^ 53)) as [Hsmall|Hlarge].
  - by apply round_magnitude_small.
  - assert (a = 2 ^ 52 * 2 ^ 1) as -> by lia.
    apply round_magnitude_grid; lia.
Qed.

Lemma overflow_bound_large : 2 ^ 53 < overflow_bound.
Proof. by vm_compute. Qed.

Lemma round_double_unfold (x : Z) :
  round_double x =
  if decide (overflow_bound ≤ round_magnitude (Z.abs x))
  then (if decide (x < 0) then MinusInfinity else PlusInfinity)
  else Finite (Z.sgn x * round_magnitude (Z.abs x)).
Proof. reflexivity. Qed.

Lemma round_double_exact (x : Z) :
  Z.abs x ≤ 2 ^ 53 → round_double x = Finite x.
Proof.
  intros Hx. rewrite round_double_unfold.
  rewrite round_magnitude_exact by done.
  pose proof overflow_bound_large.
  rewrite decide_False by lia. f_equal. lia.
Qed.

Lemma number_le_refl (a : number) : number_le a a.
Proof. destruct a; simpl; done. Qed.

Lemma number_le_trans (a b c : number) :
  number_le a b → number_le b c → number_le a c.
Proof. destruct a, b, c; simpl; try done; lia. Qed.

Lemma round_double_mono (x y : Z) :
  x ≤ y → number_le (round_double x) (round_double y).
Proof.
  intros Hxy. rewrite !round_double_unfold.
  pose proof (round_magnitude_nonneg (Z.abs x) (Z.abs_nonneg x)) as Hx0.
  pose proof (round_magnitude_nonneg (Z.abs y) (Z.abs_nonneg y)) as Hy0.
  assert (Hpos : 0 ≤ x → round_magnitude (Z.abs x) ≤ round_magnitude (Z.abs y)).
  { intros ?. apply round_magnitude_mono; lia. }
  assert (Hneg : y ≤ 0 → round_magnitude (Z.abs y) ≤ round_magnitude (Z.abs x)).
  { intros ?. apply round_magnitude_mono; lia. }
  set (mx := round_magnitude (Z.abs x)) in *.
  set (my := round_magnitude (Z.abs y)) in *.
  pose proof overflow_bound_large.
  repeat case_decide; simpl; try done; try lia; nia.
Qed.

Lemma round_double_settled (x : Z) : settled (round_double x).
Proof.
  rewrite round_double_unfold.
  pose proof (round_magnitude_nonneg (Z.abs x) (Z.abs_nonneg x)) as Hm0.
  pose proof (round_magnitude_idem (Z.abs x) (Z.abs_nonneg x)) as Hidem.
  set (m := round_magnitude (Z.abs x)) in *.
  repeat case_decide; simpl; try done.
  destruct (decide (x = 0)) as [->|Hx].
  - simpl. by apply round_double_exact.
  - assert (Habs : Z.abs (Z.sgn x * m) = m) by lia.
    rewrite round_double_unfold, Habs, Hidem.
    rewrite decide_False by done. f_equal. nia.
Qed.

Lemma number_add_settled (a : number) (p : Z) :
  settled a → settled (number_add a p).
Proof. destruct a; simpl; [|done..]. intros _. apply round_double_settled. Qed.

Lemma number_add_mono (a b : number) (p : Z) :
  number_le a b → number_le (number_add a p) (number_add b p).
Proof.
  destruct a, b; simpl; try done.
  - intros Hle. apply round_double_mono. lia.
  - intros _. by destruct (round_double (z + p)).
Qed.

Lemma number_add_nonneg (a : number) (p : Z) :
  settled a → 0 ≤ p → number_le a (number_add a p).
Proof.
  destruct a as [z| |]; [|done..].
  intros Hset Hp. change (round_double z = Finite z) in Hset.
  pose proof (round_double_mono z (z + p)) as Hmono.
  rewrite Hset in Hmono. apply Hmono. lia.
Qed.

Lemma number_add_zero (a : number) : settled a → number_add a 0 = a.
Proof.
  destruct a; simpl; [|done..]. intros Hset. by rewrite Z.add_0_r.
Qed.

(** ** Sums of points *)

Lemma sums_ordered_from (qs : list Question) (p t : number) :
  Forall (λ q, published q = false → 0 ≤ points q) qs →
  settled t → number_le p t →
  number_le
    (fold_left
       (λ total question,
          if published question then number_add total (points question)
          else total) qs p)
    (fold_left (λ total question, number_add total (points question)) qs t).
Proof.
  intros Hqs. revert p t.
  induction Hqs as [|q qs Hq _ IH]; intros p t Hset Hle; [done|].
  simpl. apply IH; [by apply number_add_settled|].
  destruct (published q).
  - by apply number_add_mono.
  - apply number_le_trans with t; [done|].
    apply number_add_nonneg; auto.
Qed.

Lemma sums_equal_from (qs : list Question) (t : number) :
  Forall (λ q, published q = true ∨ points q = 0) qs →
  settled t →
  fold_left
    (λ total question,
       if published question then number_add total (points question)
       else total) qs t =
  fold_left (λ total question, number_add total (points question)) qs t.
Proof.
  intros Hqs. revert t.
  induction Hqs as [|q qs Hq _ IH]; intros t Hset; [done|].
  simpl. destruct (published q) eqn:Hpub.
  - apply IH. by apply number_add_settled.
  - destruct Hq as [?|Hzero]; [done|].
    rewrite Hzero, number_add_zero by done. by apply IH.
Qed.

Lemma points_magnitude_nonneg (qs : list Question) : 0 ≤ points_magnitude qs.
Proof. induction qs as [|q qs IH]; simpl; lia. Qed.

Lemma sumPoints_exact_from (qs : list Question) (a : Z) :
  Z.abs a + points_magnitude qs ≤ 2 ^ 53 →
  fold_left (λ total question, number_add total (points question)) qs
    (Finite a) =
  Finite (a + exact_points qs).
Proof.
  revert a. induction qs as [|q qs IH]; intros a Hsafe; simpl in *.
  - by rewrite Z.add_0_r.
  - pose proof (points_magnitude_nonneg qs).
    rewrite round_double_exact by lia. rewrite IH by lia. f_equal. lia.
Qed.

Lemma sumPublishedPoints_exact_from (qs : list Question) (a : Z) :
  Z.abs a + points_magnitude qs ≤ 2 ^ 53 →
  fold_left
    (λ total question,
       if published question then number_add total (points question)
       else total) qs (Finite a) =
  Finite (a + exact_published_points qs).
Proof.
  revert a. induction qs as [|q qs IH]; intros a Hsafe; simpl in *.
  - by rewrite Z.add_0_r.
  - pose proof (points_magnitude_nonneg qs).
    destruct (published q).
    + rewrite round_double_exact by lia. rewrite IH by lia. f_equal. lia.
    + rewrite IH by lia. f_equal.
Qed.

Lemma exact_gap (qs : list Question) :
  Forall (λ q, published q = false → 0 ≤ points q) qs →
  exact_published_points qs ≤ exact_points qs ∧
  (exact_published_points qs = exact_points qs →
   Forall (λ q, published q = true ∨ points q = 0) qs).
Proof.
  induction 1 as [|q qs Hq _ [IHle IHeq]]; simpl.
  - split; [done | constructor].
  - destruct (published q) eqn:Hpub.
    + split; [lia|]. intros Heq. constructor; [by left|]. apply IHeq. lia.
    + specialize (Hq eq_refl). split; [lia|].
      intros Heq. constructor; [right; lia|]. apply IHeq. lia.
Qed.

(** C1, as stated, fails: an unpublished question with negative points
    makes the published sum the larger one; an unpublished question worth
    zero points leaves the two sums equal although not every question is
    published; and so does an unpublished question worth one point after
    a published one worth 2^53, the addition of 1 to 2^53 being rounded
    back to 2^53. *)
Lemma published_sum_law_fails :
  ¬ published_sum_law
      [mkQuestion 3 "Penalty" short_answer_question "b" "e" [] (-1) false] ∧
  ¬ published_sum_law
      [mkQuestion 4 "Survey" short_answer_question "b" "e" [] 0 false] ∧
  ¬ published_sum_law
      [mkQuestion 7 "Jackpot" short_answer_question "b" "e" []
         9007199254740992 true;
       mkQuestion 8 "Bonus" short_answer_question "b" "e" [] 1 false].
Proof.
  split_and!; intros [Hle Hiff].
  - vm_compute in Hle. by apply Hle.
  - destruct Hiff as [Hall _].
    specialize (Hall eq_refl). by inversion Hall.
  - destruct Hiff as [Hall _].
    assert (Hsame :
      sumPublishedPoints
        [mkQuestion 7 "Jackpot" short_answer_question "b" "e" []
           9007199254740992 true;
         mkQuestion 8 "Bonus" short_answer_question "b" "e" [] 1 false] =
      sumPoints
        [mkQuestion 7 "Jackpot" short_answer_question "b" "e" []
           9007199254740992 true;
         mkQuestion 8 "Bonus" short_answer_question "b" "e" [] 1 false])
      by (by vm_compute).
    specialize (Hall Hsame).
    apply Forall_cons in Hall as [_ Hall].
    apply Forall_cons in Hall as [Hbonus _]. discriminate Hbonus.
Qed.

(** C1 (amended): for integer points, when no unpublished question has
    negative points, the published sum is at most the full sum; the two are
    equal whenever every question is published or worth zero points; and
    when the absolute values of the points add up to at most 2^53, so that
    no addition rounds, they are equal only then. *)
Theorem sumPublishedPoints_le_sumPoints (qs : list Question) :
  Forall (λ q, published q = false → 0 ≤ points q) qs →
  number_le (sumPublishedPoints qs) (sumPoints qs) ∧
  (Forall (λ q, published q = true ∨ points q = 0) qs →
   sumPublishedPoints qs = sumPoints qs) ∧
  (points_magnitude qs ≤ 2 ^ 53 →
   sumPublishedPoints qs = sumPoints qs →
   Forall (λ q, published q = true ∨ points q = 0) qs).
Proof.
  intros Hqs.
  assert (Hzero : settled (Finite 0)) by (by apply round_double_exact).
  split_and!.
  - apply sums_ordered_from; [done | done | apply number_le_refl].
  - intros Hall. by apply sums_equal_from.
  - intros Hsafe. unfold sumPublishedPoints, sumPoints.
    rewrite sumPoints_exact_from, sumPublishedPoints_exact_from by (simpl; lia).
    intros [= Heq]. by apply exact_gap.
Qed.

Lemma sumPublishedPoints_le_sumPoints_witness :
  Forall (λ q, published q = false → 0 ≤ points q) sample ∧
  number_le (sumPublishedPoints sample) (sumPoints sample) ∧
  (Forall (λ q, published q = true ∨ points q = 0) sample →
   sumPublishedPoints sample = sumPoints sample) ∧
  (points_magnitude sample ≤ 2 ^ 53 →
   sumPublishedPoints sample = sumPoints sample →
   Forall (λ q, published q = true ∨ points q = 0) sample).
Proof.
  assert (Hpts : Forall (λ q, published q = false → 0 ≤ points q) sample).
  { repeat constructor; intros _; vm_compute; discriminate. }
  split; [exact Hpts|].
  exact (sumPublishedPoints_le_sumPoints sample Hpts).
Defined.

Example sums_round :
  sumPoints
    [mkQuestion 7 "Jackpot" short_answer_question "b" "e" []
       9007199254740992 true;
     mkQuestion 8 "Bonus" short_answer_question "b" "e" [] 1 false] =
  Finite 9007199254740992 ∧
  sumPoints
    [mkQuestion 7 "Jackpot" short_answer_question "b" "e" []
       9007199254740992 true;
     mkQuestion 8 "Bonus" short_answer_question "b" "e" [] 3 false] =
  Finite 9007199254740996 ∧
  sumPoints
    [mkQuestion 7 "Huge" short_answer_question "b" "e" []
       ((2 ^ 53 - 1) * 2 ^ 971) true;
     mkQuestion 8 "Huge" short_answer_question "b" "e" []
       ((2 ^ 53 - 1) * 2 ^ 971) true] = PlusInfinity.
Proof. split_and!; by vm_compute. Qed.

Example String_of_number_sample :
  String_of_number 0 = "0" ∧
  String_of_number (-15) = "-15" ∧
  String_of_number 9007199254740992 = "9007199254740992" ∧
  String_of_number (2 ^ 64) = "18446744073709552000" ∧
  String_of_number (10 ^ 21) = "1e+21" ∧
  String_of_number (2 ^ 70) = "1.1805916207174113e+21" ∧
  String_of_number (- 2 ^ 100) = "-1.2676506002282294e+30" ∧
  String_of_number ((2 ^ 53 - 1) * 2 ^ 971) = "1.7976931348623157e+308".
Proof. split_and!; by vm_compute. Qed.

(** ** Removal and re-insertion *)

Lemma filter_all (P : Question → Prop) `{!∀ x, Decision (P x)}
    (l : list Question) :
  Forall P l → filter P l = l.
Proof.
  induction 1 as [|x l Hx _ IH]; [done|].
  by rewrite filter_cons_True, IH.
Qed.

Lemma distinct_ids_elsewhere (qs : list Question) (k : nat) (q : Question) :
  NoDup (id <$> qs) → qs !! k = Some q →
  Forall (λ y, id y ≠ id q) (take k qs) ∧
  Forall (λ y, id y ≠ id q) (drop (S k) qs).
Proof.
  intros Hnd Hk.
  assert (Hidk : (id <$> qs) !! k = Some (id q))
    by (by rewrite list_lookup_fmap, Hk).
  split; apply Forall_lookup; intros j y Hj Heq.
  - apply lookup_take_Some in Hj as [Hj Hlt].
    assert (Hidj : (id <$> qs) !! j = Some (id q))
      by (by rewrite list_lookup_fmap, Hj, <- Heq).
    pose proof (NoDup_lookup _ _ _ _ Hnd Hidj Hidk). lia.
  - rewrite lookup_drop in Hj.
    assert (Hidj : (id <$> qs) !! (S k + j)%nat = Some (id q))
      by (by rewrite list_lookup_fmap, Hj, <- Heq).
    pose proof (NoDup_lookup _ _ _ _ Hnd Hidj Hidk). lia.
Qed.

Lemma removeQuestion_at (qs : list Question) (k : nat) (q : Question) :
  NoDup (id <$> qs) → qs !! k = Some q →
  removeQuestion qs (id q) = take k qs ++ drop (S k) qs.
Proof.
  intros Hnd Hk.
  destruct (distinct_ids_elsewhere qs k q Hnd Hk) as [Hbefore Hafter].
  unfold removeQuestion.
  rewrite <- (take_drop_middle qs k q Hk) at 1.
  rewrite filter_app, filter_cons_False by (intros Hne; by apply Hne).
  by rewrite !filter_all.
Qed.

(** C6: with pairwise distinct ids, putting the question found at index
    [k] back at position [k] of [removeQuestion qs q.id] gives [qs]
    again. *)
Theorem removeQuestion_reinsert (qs : list Question) (k : nat) (q : Question) :
  NoDup (id <$> qs) → qs !! k = Some q →
  insert_at k q (removeQuestion qs (id q)) = qs.
Proof.
  intros Hnd Hk.
  rewrite (removeQuestion_at qs k q Hnd Hk). unfold insert_at.
  assert (Hlen : length (take k qs) = k).
  { apply lookup_lt_Some in Hk. rewrite length_take. lia. }
  rewrite take_app_length', drop_app_length' by done.
  by apply take_drop_middle.
Qed.

Lemma removeQuestion_reinsert_witness :
  NoDup (id <$> sample) ∧ sample !! 2%nat = Some q_colors ∧
  insert_at 2 q_colors (removeQuestion sample (id q_colors)) = sample.
Proof.
  assert (Hnd : NoDup (id <$> sample)).
  { apply (bool_decide_unpack _ (dec := NoDup_dec _)). vm_compute. exact I. }
  split_and!; [exact Hnd | reflexivity |].
  exact (removeQuestion_reinsert sample 2 q_colors Hnd eq_refl).
Defined.

(** ** Lookup by id *)

(** C8: [findQuestion] returns a question exactly when it is the first one
    of the array with the given id, and returns null ([None]), without
    failing, exactly when no question of the array has that id. *)
Theorem findQuestion_first_or_null (qs : list Question) (id0 : Z) :
  (∀ q, findQuestion qs id0 = Some q ↔
        ∃ k, qs !! k = Some q ∧ id q = id0 ∧
             ∀ j y, qs !! j = Some y → (j < k)%nat → id y ≠ id0) ∧
  (findQuestion qs id0 = None ↔ ∀ q, q ∈ qs → id q ≠ id0).
Proof.
  unfold findQuestion, find. split.
  - intros q.
    destruct (list_find (λ question, id question = id0) qs) as [[k x]|] eqn:Hfind;
      simpl.
    + apply list_find_Some in Hfind as (Hk & Hid & Hfirst). split.
      * intros [= <-]. by exists k.
      * intros (k' & Hk' & Hid' & Hfirst').
        destruct (Nat.lt_trichotomy k k') as [Hlt|[->|Hgt]].
        -- by destruct (Hfirst' k x Hk Hlt).
        -- congruence.
        -- by destruct (Hfirst k' q Hk' Hgt).
    + split; [done|]. intros (k & Hk & Hid & _).
      apply list_find_None in Hfind. rewrite Forall_lookup in Hfind.
      by destruct (Hfind k q Hk).
  - destruct (list_find (λ question, id question = id0) qs) as [[k x]|] eqn:Hfind;
      simpl.
    + apply list_find_Some in Hfind as (Hk & Hid & _). split; [done|].
      intros Hnone. destruct (Hnone x); [|done].
      by eapply list_elem_of_lookup_2.
    + split; [|done]. intros _.
      apply list_find_None in Hfind. by rewrite Forall_forall in Hfind.
Qed.

(** ** Homogeneity *)

Lemma sameType_loop (t : QuestionType) (qs : list Question) (b : bool) :
  fold_left
    (λ isSame question,
       if bool_decide (type question ≠ t) && isSame then false else isSame)
    qs b = true ↔
  b = true ∧ Forall (λ q, type q = t) qs.
Proof.
  revert b. induction qs as [|q qs IH]; intros b; simpl.
  - split; [intros ->; by split | by intros [-> _]].
  - rewrite IH, Forall_cons.
    destruct (decide (type q = t)) as [Heq|Hne].
    + rewrite bool_decide_eq_false_2 by (intros Hne; by apply Hne).
      simpl. tauto.
    + rewrite bool_decide_eq_true_2 by done. destruct b; simpl; (split; [intros [? ?] | intros (? & ? & ?)]; congruence).
Qed.

(** C9: [sameType] is true exactly when all the questions have the same
    type; it is true of the empty array and of every one-element
    array. *)
Theorem sameType_iff_same_type (qs : list Question) :
  (sameType qs = true ↔
   ∀ q1 q2, q1 ∈ qs → q2 ∈ qs → type q1 = type q2) ∧
  sameType [] = true ∧
  (∀ q, sameType [q] = true).
Proof.
  split_and!.
  - destruct qs as [|first rest].
    + split; [|done]. intros _ q1 q2 Hin. by apply elem_of_nil in Hin.
    + unfold sameType. rewrite sameType_loop, Forall_forall. split.
      * intros [_ Hall] q1 q2 H1 H2. by rewrite (Hall q1 H1), (Hall q2 H2).
      * intros Hsame. split; [done|].
        intros q Hq. apply Hsame; [done | by left].
  - reflexivity.
  - intros q. unfold sameType. apply sameType_loop.
    split; [done|]. by repeat constructor.
Qed.

(** ** Non-empty questions *)

Lemma string_length_zero (s : string) : String.length s = 0%nat ↔ s = "".
Proof. by destruct s. Qed.

Lemma nonzero_lengths_iff_not_empty (q : Question) :
  String.length (body q) ≠ 0%nat ∨
  String.length (expected q) ≠ 0%nat ∨
  length (options q) ≠ 0%nat ↔
  ¬ is_empty_question q.
Proof.
  unfold is_empty_question.
  rewrite <- !string_length_zero, <- length_zero_iff_nil.
  destruct (decide (String.length (body q) = 0%nat));
    destruct (decide (String.length (expected q) = 0%nat));
    destruct (decide (length (options q) = 0%nat)); tauto.
Qed.

(** C10: [getNonEmptyQuestions] keeps exactly the questions that are not
    empty (body and expected both the empty string and no options), in
    their original relative order. *)
Theorem getNonEmptyQuestions_keeps_non_empty (qs : list Question) :
  getNonEmptyQuestions qs = filter (λ q, ¬ is_empty_question q) qs ∧
  (∀ q, q ∈ getNonEmptyQuestions qs ↔ q ∈ qs ∧ ¬ is_empty_question q) ∧
  getNonEmptyQuestions qs `sublist_of` qs.
Proof.
  split_and!.
  - unfold getNonEmptyQuestions. apply list_filter_iff.
    intros q. apply nonzero_lengths_iff_not_empty.
  - intros q. unfold getNonEmptyQuestions.
    rewrite list_elem_of_filter, nonzero_lengths_iff_not_empty. tauto.
  - apply sublist_filter.
Qed.

Example getNonEmptyQuestions_sample :
  getNonEmptyQuestions sample = [q_letters; q_colors].
Proof. reflexivity. Qed.

(** ** The CSV table *)

Lemma append_cons (a : ascii) (s t : string) :
  String a s +:+ t = String a (s +:+ t).
Proof. reflexivity. Qed.

Lemma append_assoc (s t u : string) : (s +:+ t) +:+ u = s +:+ (t +:+ u).
Proof.
  induction s as [|a s IH]; [done|]. by rewrite !append_cons, IH.
Qed.

Lemma toCSV_line (q : Question) :
  ((((((((newline +:+ String_of_number (id q)) +:+ ",") +:+ name q) +:+ ",") +:+
       String_of_number (Z.of_nat (length (options q)))) +:+ ",") +:+
     String_of_number (points q)) +:+ ",") +:+
  String_of_boolean (published q) =
  newline +:+ csv_row q.
Proof.
  unfold csv_row, String_of_boolean.
  destruct (published q); by rewrite !append_assoc.
Qed.

Lemma concat_extend_head (a b : string) (rest : list string) :
  String.concat newline ((a +:+ newline +:+ b) :: rest) =
  a +:+ newline +:+ String.concat newline (b :: rest).
Proof.
  destruct rest as [|x xs]; [done|].
  change (String.concat newline ((a +:+ newline +:+ b) :: x :: xs))
    with ((a +:+ newline +:+ b) +:+ newline +:+ String.concat newline (x :: xs)).
  change (String.concat newline (b :: x :: xs))
    with (b +:+ newline +:+ String.concat newline (x :: xs)).
  by rewrite !append_assoc.
Qed.

Lemma toCSV_from (qs : list Question) (csv : string) :
  fold_left
    (λ csv question,
       csv +:+
       (((((((((newline +:+ String_of_number (id question)) +:+ ",") +:+
             name question) +:+ ",") +:+
           String_of_number (Z.of_nat (length (options question)))) +:+ ",") +:+
         String_of_number (points question)) +:+ ",") +:+
        String_of_boolean (published question)))
    qs csv =
  String.concat newline (csv :: map csv_row qs).
Proof.
  revert csv. induction qs as [|q qs IH]; intros csv; [done|].
  simpl fold_left. rewrite IH, toCSV_line.
  simpl map. rewrite concat_extend_head.
  destruct (map csv_row qs); done.
Qed.

(** C7: [toCSV] is the header line followed by one line per question, in
    input order, each line being the id, the name, the number of options,
    the points and the published flag, as the text true or false,
    separated by commas; on the empty array it is the header alone, and on
    the single question Addition it is the header and the line
    1,Addition,0,1,true. The table of the source's own comment, and one
    with numbers that print in rounded and in exponent notation, come out
    as shown. *)
Theorem toCSV_is_table (qs : list Question) :
  toCSV qs = csv_table qs ∧
  toCSV [] = "id,name,options,points,published" ∧
  (∀ (t : QuestionType) (b e : string),
     toCSV [mkQuestion 1 "Addition" t b e [] 1 true] =
     "id,name,options,points,published
1,Addition,0,1,true") ∧
  toCSV
    [mkQuestion 1 "Addition" short_answer_question "" "" [] 1 true;
     mkQuestion 2 "Letters" short_answer_question "" "" [] 1 false;
     mkQuestion 5 "Colors" multiple_choice_question "" ""
       ["red"; "apple"; "firetruck"] 1 true;
     mkQuestion 9 "Shapes" multiple_choice_question "" ""
       ["square"; "triangle"; "circle"] 2 false] =
    "id,name,options,points,published
1,Addition,0,1,true
2,Letters,0,1,false
5,Colors,3,1,true
9,Shapes,3,2,false" ∧
  toCSV
    [mkQuestion (10 ^ 21) "Big" short_answer_question "" "" []
       (2 ^ 64) false;
     mkQuestion (-12) "Low" short_answer_question "" "" [] (- 2 ^ 70) true] =
    "id,name,options,points,published
1e+21,Big,0,18446744073709552000,false
-12,Low,0,-1.1805916207174113e+21,true".
Proof.
  split_and!.
  - apply toCSV_from.
  - reflexivity.
  - intros t b e. by vm_compute.
  - by vm_compute.
  - by vm_compute.
Qed.

(** ** Updates targeted by id *)

Section Targeted.
Variables (qs : list Question) (targetId : Z) (k : nat) (q : Question).
Hypothesis Hone : exactly_one qs targetId.
Hypothesis Hk : qs !! k = Some q.
Hypothesis Hid : id q = targetId.

Lemma target_index :
  findIndex (λ question, id question = targetId) qs = Z.of_nat k.
Proof.
  eapply findIndex_found.
  exact (single_match_find (λ question, id question = targetId)
           qs k q Hone Hk Hid).
Qed.

Lemma target_data : at_index qs (Z.of_nat k) = Some q.
Proof. by rewrite at_index_of_nat. Qed.

Lemma target_before : slice qs 0 (Z.of_nat k) = take k qs.
Proof. apply slice_prefix. apply lookup_lt_Some in Hk. lia. Qed.

Lemma target_after : slice_from qs (Z.of_nat k + 1) = drop (S k) qs.
Proof. apply slice_from_succ. by apply lookup_lt_Some in Hk. Qed.

Lemma length_before : length (take k qs) = k.
Proof. apply lookup_lt_Some in Hk. rewrite length_take. lia. Qed.

(** The rebuilt array, with [q'] in place of the target. *)
Lemma rebuilt_with (q' : Question) :
  (take k qs ++ [q']) ++ drop (S k) qs = <[k := q']> qs.
Proof.
  rewrite <- app_assoc. simpl. by apply rebuild_is_insert with q.
Qed.

Lemma renameQuestionById_found (newName : string) :
  renameQuestionById qs targetId newName =
  Returns (<[k := with_name q newName]> qs).
Proof.
  unfold renameQuestionById.
  rewrite target_index, target_data, target_before, target_after.
  by rewrite rebuilt_with.
Qed.

Lemma changeQuestionTypeById_found (newQuestionType : QuestionType) :
  changeQuestionTypeById qs targetId newQuestionType =
  Returns
    (<[k := if decide (type q = multiple_choice_question ∧
                       type q ≠ newQuestionType)
            then with_options (with_type q newQuestionType) []
            else with_type q newQuestionType]> qs).
Proof.
  unfold changeQuestionTypeById.
  rewrite target_index, target_data, target_before, target_after.
  case_decide; by rewrite rebuilt_with.
Qed.

Lemma editOption_append_found (newOption : string) :
  editOption qs targetId (-1) newOption =
  Returns (<[k := with_options q (options q ++ [newOption])]> qs).
Proof.
  unfold editOption.
  rewrite target_index, target_data, target_before, target_after.
  rewrite decide_True by done. by rewrite rebuilt_with.
Qed.

Lemma editOption_replace_found (i : Z) (newOption : string) :
  0 ≤ i < Z.of_nat (length (options q)) →
  editOption qs targetId i newOption =
  Returns
    (<[k := with_options q (<[Z.to_nat i := newOption]> (options q))]> qs).
Proof.
  intros Hi. unfold editOption.
  rewrite target_index, target_data, target_before, target_after.
  rewrite decide_False by lia.
  rewrite at_index_of_nat.
  rewrite lookup_app_r by (rewrite length_before; lia).
  rewrite length_before, Nat.sub_diag. simpl.
  unfold array_set.
  rewrite decide_False, decide_True by lia.
  rewrite Nat2Z.id.
  rewrite insert_app_r_alt by (rewrite length_before; lia).
  rewrite length_before, Nat.sub_diag. simpl.
  by rewrite rebuilt_with.
Qed.

Lemma duplicateQuestionInArray_found (newId : Z) :
  duplicateQuestionInArray qs targetId newId =
  Returns (insert_at (S k) (duplicateQuestion newId q) qs).
Proof.
  unfold duplicateQuestionInArray, insert_at.
  rewrite target_index, target_data, target_before, target_after.
  rewrite <- app_assoc. simpl.
  by rewrite (take_S_r qs k q Hk), <- app_assoc.
Qed.
End Targeted.

Lemma insert_at_length {A} (n : nat) (x : A) (l : list A) :
  length (insert_at n x l) = S (length l).
Proof.
  unfold insert_at. rewrite length_app. simpl.
  rewrite length_take, length_drop. lia.
Qed.

Lemma insert_at_lookup_before {A} (n j : nat) (x : A) (l : list A) :
  (n ≤ length l)%nat → (j < n)%nat → insert_at n x l !! j = l !! j.
Proof.
  intros Hn Hj. unfold insert_at.
  rewrite lookup_app_l by (rewrite length_take; lia).
  by apply lookup_take_lt.
Qed.

Lemma insert_at_lookup_here {A} (n : nat) (x : A) (l : list A) :
  (n ≤ length l)%nat → insert_at n x l !! n = Some x.
Proof.
  intros Hn. unfold insert_at.
  rewrite lookup_app_r by (rewrite length_take; lia).
  rewrite length_take, Nat.min_l, Nat.sub_diag by done. done.
Qed.

Lemma insert_at_lookup_after {A} (n j : nat) (x : A) (l : list A) :
  (n ≤ length l)%nat → (n ≤ j)%nat → insert_at n x l !! S j = l !! j.
Proof.
  intros Hn Hj. unfold insert_at.
  rewrite lookup_app_r by (rewrite length_take; lia).
  rewrite length_take, Nat.min_l by done.
  replace (S j - n)%nat with (S (j - n)) by lia. simpl.
  rewrite lookup_drop. f_equal. lia.
Qed.

(** C5: when exactly one question has the target id, [renameQuestionById]
    returns an array of the same length that agrees with the input at
    every index but the target's, where the question has the new name and
    is otherwise as it was. *)
Theorem renameQuestionById_changes_only_name
    (qs : list Question) (targetId : Z) (newName : string)
    (k : nat) (q : Question) :
  exactly_one qs targetId → qs !! k = Some q → id q = targetId →
  ∃ qs' q',
    renameQuestionById qs targetId newName = Returns qs' ∧
    differ_only_at k qs qs' ∧
    qs' !! k = Some q' ∧
    name q' = newName ∧ same_but_name q q'.
Proof.
  intros Hone Hk Hid.
  exists (<[k := with_name q newName]> qs), (with_name q newName).
  split_and!.
  - by apply renameQuestionById_found.
  - apply differ_only_at_insert.
  - apply list_lookup_insert_eq. by apply lookup_lt_Some in Hk.
  - reflexivity.
  - by repeat split.
Qed.

Lemma renameQuestionById_changes_only_name_witness :
  exactly_one sample 5 ∧ sample !! 2%nat = Some q_colors ∧ id q_colors = 5 ∧
  ∃ qs' q',
    renameQuestionById sample 5 "Hues" = Returns qs' ∧
    differ_only_at 2 sample qs' ∧
    qs' !! 2%nat = Some q' ∧
    name q' = "Hues" ∧ same_but_name q_colors q'.
Proof.
  split_and!; [reflexivity..|].
  apply (renameQuestionById_changes_only_name sample 5 "Hues" 2 q_colors);
    reflexivity.
Defined.

(** C3: when exactly one question has the target id,
    [changeQuestionTypeById] gives that question the new type; its options
    become the empty list when its old type was multiple_choice_question
    and the new type differs, and are kept otherwise; its other fields, the
    other questions and the order are unchanged. *)
Theorem changeQuestionTypeById_resets_options
    (qs : list Question) (targetId : Z) (newQuestionType : QuestionType)
    (k : nat) (q : Question) :
  exactly_one qs targetId → qs !! k = Some q → id q = targetId →
  ∃ qs' q',
    changeQuestionTypeById qs targetId newQuestionType = Returns qs' ∧
    differ_only_at k qs qs' ∧
    qs' !! k = Some q' ∧
    type q' = newQuestionType ∧
    (leaves_multiple_choice (type q) newQuestionType → options q' = []) ∧
    (¬ leaves_multiple_choice (type q) newQuestionType →
     options q' = options q) ∧
    same_but_type_and_options q q'.
Proof.
  intros Hone Hk Hid.
  pose proof (changeQuestionTypeById_found qs targetId k q Hone Hk Hid
                newQuestionType) as Hres.
  eexists _, _. split; [exact Hres|].
  split; [apply differ_only_at_insert|].
  split; [apply list_lookup_insert_eq; by apply lookup_lt_Some in Hk|].
  unfold leaves_multiple_choice.
  case_decide as Hcase; simpl.
  - destruct Hcase as [Hold Hnew]. split_and!; [done | done | | by repeat split].
    intros Hstay. destruct Hstay. split; [done | congruence].
  - split_and!; [done | | done | by repeat split].
    intros [Hold Hnew]. destruct Hcase. split; [done | congruence].
Qed.

Lemma changeQuestionTypeById_resets_options_witness :
  exactly_one sample 5 ∧ sample !! 2%nat = Some q_colors ∧ id q_colors = 5 ∧
  ∃ qs' q',
    changeQuestionTypeById sample 5 short_answer_question = Returns qs' ∧
    differ_only_at 2 sample qs' ∧
    qs' !! 2%nat = Some q' ∧
    type q' = short_answer_question ∧
    (leaves_multiple_choice (type q_colors) short_answer_question →
     options q' = []) ∧
    (¬ leaves_multiple_choice (type q_colors) short_answer_question →
     options q' = options q_colors) ∧
    same_but_type_and_options q_colors q'.
Proof.
  split_and!; [reflexivity..|].
  apply (changeQuestionTypeById_resets_options sample 5 short_answer_question
           2 q_colors); reflexivity.
Defined.

Example changeQuestionTypeById_sample :
  changeQuestionTypeById sample 5 short_answer_question =
  Returns [q_addition; q_letters;
           mkQuestion 5 "Colors" short_answer_question "Which is a color?"
             "red" [] 1 true;
           q_blank] ∧
  changeQuestionTypeById sample 5 multiple_choice_question = Returns sample ∧
  changeQuestionTypeById sample 2 multiple_choice_question =
  Returns [q_addition; with_type q_letters multiple_choice_question;
           q_colors; q_blank] ∧
  changeQuestionTypeById sample 6 short_answer_question = ThrowsTypeError.
Proof. split_and!; reflexivity. Qed.

(** C4: when exactly one question has the target id, [editOption] with
    index -1 appends the new option to that question's options, and with
    an index inside the options it replaces the option at that index and
    no other; the question's other fields, the other questions and the
    order are unchanged. *)
Theorem editOption_appends_or_replaces
    (qs : list Question) (targetId : Z) (newOption : string)
    (k : nat) (q : Question) :
  exactly_one qs targetId → qs !! k = Some q → id q = targetId →
  (∃ qs' q',
     editOption qs targetId (-1) newOption = Returns qs' ∧
     differ_only_at k qs qs' ∧
     qs' !! k = Some q' ∧
     options q' = options q ++ [newOption] ∧
     same_but_options q q') ∧
  (∀ i : Z, 0 ≤ i < Z.of_nat (length (options q)) →
     ∃ qs' q',
       editOption qs targetId i newOption = Returns qs' ∧
       differ_only_at k qs qs' ∧
       qs' !! k = Some q' ∧
       options q' !! Z.to_nat i = Some newOption ∧
       differ_only_at (Z.to_nat i) (options q) (options q') ∧
       same_but_options q q').
Proof.
  intros Hone Hk Hid.
  assert (Hlt : (k < length qs)%nat) by (by apply lookup_lt_Some in Hk).
  split.
  - eexists _, _. split_and!.
    + by apply (editOption_append_found qs targetId k q).
    + apply differ_only_at_insert.
    + by apply list_lookup_insert_eq.
    + reflexivity.
    + by repeat split.
  - intros i Hi. eexists _, _. split_and!.
    + by apply (editOption_replace_found qs targetId k q).
    + apply differ_only_at_insert.
    + by apply list_lookup_insert_eq.
    + simpl. apply list_lookup_insert_eq. lia.
    + apply differ_only_at_insert.
    + by repeat split.
Qed.

Lemma editOption_appends_or_replaces_witness :
  exactly_one sample 5 ∧ sample !! 2%nat = Some q_colors ∧ id q_colors = 5 ∧
  (∃ qs' q',
     editOption sample 5 (-1) "blue" = Returns qs' ∧
     differ_only_at 2 sample qs' ∧
     qs' !! 2%nat = Some q' ∧
     options q' = options q_colors ++ ["blue"] ∧
     same_but_options q_colors q') ∧
  (∀ i : Z, 0 ≤ i < Z.of_nat (length (options q_colors)) →
     ∃ qs' q',
       editOption sample 5 i "blue" = Returns qs' ∧
       differ_only_at 2 sample qs' ∧
       qs' !! 2%nat = Some q' ∧
       options q' !! Z.to_nat i = Some "blue" ∧
       differ_only_at (Z.to_nat i) (options q_colors) (options q') ∧
       same_but_options q_colors q').
Proof.
  do 3 (split; [reflexivity|]).
  apply (editOption_appends_or_replaces sample 5 "blue" 2 q_colors);
    reflexivity.
Defined.

Example editOption_outside :
  editOption sample 5 3 "blue" =
    Returns [q_addition; q_letters;
             with_options q_colors ["red"; "apple"; "firetruck"; "blue"];
             q_blank] ∧
  editOption sample 5 7 "blue" = ReturnsMalformed ∧
  editOption sample 5 (-2) "blue" = Returns sample ∧
  editOption sample 6 0 "blue" = ThrowsTypeError.
Proof. split_and!; reflexivity. Qed.

(** C2: when exactly one question has the target id,
    [duplicateQuestionInArray] returns an array one longer than the input,
    with the duplicate inserted right after the original; the duplicate has
    the new id and every other field of the original, and the other
    elements are the input's, in the input's order. *)
Theorem duplicateQuestionInArray_inserts_after
    (qs : list Question) (targetId newId : Z) (k : nat) (q : Question) :
  exactly_one qs targetId → qs !! k = Some q → id q = targetId →
  ∃ qs' dup,
    duplicateQuestionInArray qs targetId newId = Returns qs' ∧
    length qs' = S (length qs) ∧
    qs' = insert_at (S k) dup qs ∧
    qs' !! k = Some q ∧
    qs' !! S k = Some dup ∧
    id dup = newId ∧ same_but_id q dup ∧
    (∀ j, (j < k)%nat → qs' !! j = qs !! j) ∧
    (∀ j, (k < j)%nat → qs' !! S j = qs !! j).
Proof.
  intros Hone Hk Hid.
  assert (Hlt : (S k ≤ length qs)%nat) by (by apply lookup_lt_Some in Hk).
  exists (insert_at (S k) (duplicateQuestion newId q) qs),
    (duplicateQuestion newId q).
  split_and!.
  - by apply duplicateQuestionInArray_found.
  - apply insert_at_length.
  - reflexivity.
  - rewrite insert_at_lookup_before by lia. done.
  - by apply insert_at_lookup_here.
  - reflexivity.
  - by repeat split.
  - intros j Hj. apply insert_at_lookup_before; lia.
  - intros j Hj. apply insert_at_lookup_after; lia.
Qed.

Lemma duplicateQuestionInArray_inserts_after_witness :
  exactly_one sample 2 ∧ sample !! 1%nat = Some q_letters ∧ id q_letters = 2 ∧
  ∃ qs' dup,
    duplicateQuestionInArray sample 2 9 = Returns qs' ∧
    length qs' = S (length sample) ∧
    qs' = insert_at 2 dup sample ∧
    qs' !! 1%nat = Some q_letters ∧
    qs' !! 2%nat = Some dup ∧
    id dup = 9 ∧ same_but_id q_letters dup ∧
    (∀ j, (j < 1)%nat → qs' !! j = sample !! j) ∧
    (∀ j, (1 < j)%nat → qs' !! S j = sample !! j).
Proof.
  split_and!; [reflexivity..|].
  apply (duplicateQuestionInArray_inserts_after sample 2 9 1 q_letters);
    reflexivity.
Defined.

(** ** When no question has the target id

    [findIndex] gives -1, [questions[-1]] is undefined, and no update
    returns an array of questions. *)

Section Absent.
Variables (qs : list Question) (targetId : Z).
Hypothesis Habsent : ∀ q, q ∈ qs → id q ≠ targetId.

Lemma absent_index :
  findIndex (λ question, id question = targetId) qs = -1.
Proof.
  apply findIndex_absent, list_find_None, Forall_forall, Habsent.
Qed.

Lemma renameQuestionById_absent (newName : string) :
  renameQuestionById qs targetId newName = ReturnsMalformed.
Proof. unfold renameQuestionById. by rewrite absent_index. Qed.

Lemma changeQuestionTypeById_absent (newQuestionType : QuestionType) :
  changeQuestionTypeById qs targetId newQuestionType = ThrowsTypeError.
Proof. unfold changeQuestionTypeById. by rewrite absent_index. Qed.

Lemma editOption_absent (targetOptionIndex : Z) (newOption : string) :
  editOption qs targetId targetOptionIndex newOption = ThrowsTypeError.
Proof. unfold editOption. by rewrite absent_index. Qed.

Lemma duplicateQuestionInArray_absent (newId : Z) :
  duplicateQuestionInArray qs targetId newId = ReturnsMalformed.
Proof. unfold duplicateQuestionInArray. by rewrite absent_index. Qed.
End Absent.

(** * Further properties of the question-array module *)

(** ** Published questions *)

Lemma filter_fixed_iff {A} (P : A → Prop) `{!∀ x, Decision (P x)}
    (l : list A) :
  filter P l = l ↔ Forall P l.
Proof.
  split.
  - intros Hfix. apply Forall_forall. intros x Hx.
    rewrite <- Hfix in Hx. by apply list_elem_of_filter in Hx as [? _].
  - induction 1 as [|x l Hx _ IH]; [done|].
    by rewrite filter_cons_True, IH.
Qed.

(** X1: [getPublishedQuestions] keeps exactly the published questions, in
    their original order; applying it twice changes nothing more, and it
    returns its input exactly when every question is published. *)
Theorem getPublishedQuestions_exactly_published (qs : list Question) :
  (∀ q, q ∈ getPublishedQuestions qs ↔ q ∈ qs ∧ published q = true) ∧
  getPublishedQuestions qs `sublist_of` qs ∧
  getPublishedQuestions (getPublishedQuestions qs) =
    getPublishedQuestions qs ∧
  (getPublishedQuestions qs = qs ↔ Forall (λ q, published q = true) qs).
Proof.
  unfold getPublishedQuestions. split_and!.
  - intros q. rewrite list_elem_of_filter. tauto.
  - apply sublist_filter.
  - by apply list_filter_filter_l.
  - apply filter_fixed_iff.
Qed.

Lemma published_sum_from (qs : list Question) (t : number) :
  fold_left (λ total question, number_add total (points question))
    (filter (λ question, published question = true) qs) t =
  fold_left
    (λ total question,
       if published question then number_add total (points question)
       else total) qs t.
Proof.
  revert t. induction qs as [|q qs IH]; intros t; [done|].
  rewrite filter_cons. simpl.
  destruct (published q) eqn:Hpub; case_decide; try done.
  simpl. apply IH.
Qed.

(** X2: [sumPoints] of the published questions is [sumPublishedPoints] of
    the whole array, the same additions being made in the same order; and
    [sumPublishedPoints] is not changed by keeping the published questions
    first. *)
Theorem sumPoints_of_published (qs : list Question) :
  sumPoints (getPublishedQuestions qs) = sumPublishedPoints qs ∧
  sumPublishedPoints (getPublishedQuestions qs) = sumPublishedPoints qs.
Proof.
  unfold sumPoints, sumPublishedPoints, getPublishedQuestions.
  split; [apply published_sum_from|].
  rewrite <- !published_sum_from. by rewrite list_filter_filter_l.
Qed.

(** ** Names and answers *)

Lemma collect_from {A B} (f : A → B) (l : list A) (acc : list B) :
  fold_left (λ acc x, acc ++ [f x]) l acc = acc ++ map f l.
Proof.
  revert acc. induction l as [|x l IH]; intros acc; simpl.
  - by rewrite app_nil_r.
  - by rewrite IH, <- app_assoc.
Qed.

(** X3: [getNames] lists the name of each question, in the order of the
    questions: its k-th entry is the name of the k-th question, and the
    names of a concatenation are the concatenated names. *)
Theorem getNames_in_order (qs qs' : list Question) :
  length (getNames qs) = length qs ∧
  (∀ k, getNames qs !! k = name <$> qs !! k) ∧
  getNames (qs ++ qs') = getNames qs ++ getNames qs'.
Proof.
  unfold getNames. rewrite !collect_from. simpl. split_and!.
  - apply length_map.
  - intros k. apply list_lookup_fmap.
  - apply map_app.
Qed.

(** X4: [makeAnswers] gives one answer per question, in order: the k-th
    answer carries the id of the k-th question, an empty text, and is
    neither submitted nor correct. *)
Theorem makeAnswers_one_per_question (qs : list Question) :
  length (makeAnswers qs) = length qs ∧
  (∀ k, makeAnswers qs !! k = blank_answer <$> qs !! k) ∧
  questionId <$> makeAnswers qs = id <$> qs ∧
  Forall (λ a, text a = "" ∧ submitted a = false ∧ correct a = false)
    (makeAnswers qs).
Proof.
  unfold makeAnswers.
  change (λ (answers : list Answer) (question : Question),
            answers ++ [{| questionId := id question; text := "";
                           submitted := false; correct := false |}])
    with (λ (answers : list Answer) (question : Question),
            answers ++ [blank_answer question]).
  rewrite collect_from. simpl. split_and!.
  - apply length_map.
  - intros k. apply list_lookup_fmap.
  - induction qs as [|q qs IH]; [done|]. simpl in *. by f_equal.
  - induction qs as [|q qs IH]; constructor; [by repeat split | done].
Qed.

(** ** Publishing everything *)

(** X5: [publishAll] returns an array of the same length whose k-th
    question is published and otherwise equal to the k-th input
    question. *)
Theorem publishAll_publishes_each (qs : list Question) :
  length (publishAll qs) = length qs ∧
  Forall2 (λ q q', published q' = true ∧ same_but_published q q')
    qs (publishAll qs).
Proof.
  unfold publishAll. split; [apply length_map|].
  induction qs as [|q qs IH]; constructor; [|done].
  by repeat split.
Qed.

Lemma with_published_same (q : Question) :
  with_published q (published q) = q.
Proof. by destruct q. Qed.

Lemma published_sum_publishAll_from (qs : list Question) (t : number) :
  fold_left
    (λ total question,
       if published question then number_add total (points question)
       else total)
    (map (λ question, with_published question true) qs) t =
  fold_left (λ total question, number_add total (points question)) qs t.
Proof.
  revert t. induction qs as [|q qs IH]; intros t; [done|].
  simpl. apply IH.
Qed.

(** X6: after [publishAll], [getPublishedQuestions] keeps everything and
    [sumPublishedPoints] is the [sumPoints] of the input; [publishAll] is
    idempotent, keeps the names, and returns its input exactly when every
    question was published already. *)
Theorem publishAll_then (qs : list Question) :
  getPublishedQuestions (publishAll qs) = publishAll qs ∧
  sumPublishedPoints (publishAll qs) = sumPoints qs ∧
  publishAll (publishAll qs) = publishAll qs ∧
  getNames (publishAll qs) = getNames qs ∧
  (publishAll qs = qs ↔ Forall (λ q, published q = true) qs).
Proof.
  split; [|split; [apply published_sum_publishAll_from|]]; revert qs.
  all: unfold getPublishedQuestions, publishAll, getNames.
  all: intros qs; rewrite ?collect_from; simpl.
  { induction qs as [|q qs IHpub]; [done|].
    simpl. rewrite filter_cons_True by done. by rewrite IHpub. }
  induction qs as [|q qs (IHidem & IHnames & IHfix)].
  { split_and!; done. }
  simpl. split_and!.
  - by rewrite IHidem.
  - by rewrite IHnames.
  - rewrite Forall_cons, <- IHfix. split.
    + intros [= Hq Hqs]. split; [|done].
      by rewrite <- Hq.
    + intros [Hq Hqs]. rewrite Hqs. f_equal.
      rewrite <- Hq. apply with_published_same.
Qed.

(** ** Removal *)

Lemma findQuestion_cons (q : Question) (qs : list Question) (j : Z) :
  findQuestion (q :: qs) j =
  if decide (id q = j) then Some q else findQuestion qs j.
Proof.
  unfold findQuestion, find. simpl. case_decide; [done|].
  by destruct (list_find (λ question, id question = j) qs) as [[? ?]|].
Qed.

(** X7: [removeQuestion] drops every question with the given id and keeps
    the others in order; afterwards [findQuestion] finds nothing under that
    id and finds under any other id what it found before; the array comes
    back unchanged exactly when no question had the id. *)
Theorem removeQuestion_removes_id (qs : list Question) (i : Z) :
  (∀ q, q ∈ removeQuestion qs i ↔ q ∈ qs ∧ id q ≠ i) ∧
  removeQuestion qs i `sublist_of` qs ∧
  findQuestion (removeQuestion qs i) i = None ∧
  (∀ j, j ≠ i → findQuestion (removeQuestion qs i) j = findQuestion qs j) ∧
  (removeQuestion qs i = qs ↔ ∀ q, q ∈ qs → id q ≠ i).
Proof.
  unfold removeQuestion. split_and!.
  - intros q. rewrite list_elem_of_filter. tauto.
  - apply sublist_filter.
  - induction qs as [|q qs IH]; [done|].
    rewrite filter_cons. case_decide; [|done].
    rewrite findQuestion_cons. by rewrite decide_False.
  - intros j Hne. induction qs as [|q qs IH]; [done|].
    rewrite filter_cons, (findQuestion_cons q qs).
    case_decide as Hq.
    + by rewrite findQuestion_cons, IH.
    + rewrite decide_False; [done|]. congruence.
  - rewrite filter_fixed_iff. apply Forall_forall.
Qed.

(** X8: removals by id commute and are idempotent, and removing by id
    commutes with keeping the published questions. *)
Theorem removeQuestion_commutes (qs : list Question) (a b : Z) :
  removeQuestion (removeQuestion qs a) b =
    removeQuestion (removeQuestion qs b) a ∧
  removeQuestion (removeQuestion qs a) a = removeQuestion qs a ∧
  getPublishedQuestions (removeQuestion qs a) =
    removeQuestion (getPublishedQuestions qs) a.
Proof.
  unfold removeQuestion, getPublishedQuestions. split_and!.
  - rewrite !list_filter_filter. apply list_filter_iff. tauto.
  - by apply list_filter_filter_l.
  - rewrite !list_filter_filter. apply list_filter_iff. tauto.
Qed.

(** ** Homogeneity of selections *)

Lemma sameType_cons_Forall (first : Question) (rest : list Question) :
  sameType (first :: rest) = true ↔
  Forall (λ q, type q = type first) (first :: rest).
Proof.
  unfold sameType. rewrite sameType_loop. tauto.
Qed.

Lemma sameType_filter (P : Question → Prop) `{!∀ x, Decision (P x)}
    (qs : list Question) :
  sameType qs = true → sameType (filter P qs) = true.
Proof.
  intros Hsame.
  destruct (filter P qs) as [|kept rest] eqn:Hkept; [done|].
  destruct qs as [|first others]; [done|].
  apply sameType_cons_Forall in Hsame. rewrite Forall_forall in Hsame.
  assert (Hin : ∀ q, q ∈ kept :: rest → q ∈ first :: others).
  { intros q Hq. rewrite <- Hkept in Hq.
    by apply list_elem_of_filter in Hq as [_ ?]. }
  apply sameType_cons_Forall, Forall_forall. intros q Hq.
  rewrite (Hsame q (Hin q Hq)).
  symmetry. apply Hsame, Hin. by left.
Qed.

Lemma sameType_publishAll (qs : list Question) :
  sameType qs = true → sameType (publishAll qs) = true.
Proof.
  destruct qs as [|first rest]; [done|].
  intros Hsame. apply sameType_cons_Forall in Hsame.
  unfold publishAll. simpl map.
  apply sameType_cons_Forall.
  change (with_published first true :: map (λ q, with_published q true) rest)
    with (map (λ q, with_published q true) (first :: rest)).
  induction Hsame as [|q l Hq _ IH]; simpl; constructor; done.
Qed.

(** X9: when all the questions of an array have the same type, so do the
    results of [removeQuestion], [getPublishedQuestions],
    [getNonEmptyQuestions] and [publishAll]. *)
Theorem sameType_inherited (qs : list Question) (i : Z) :
  sameType qs = true →
  sameType (removeQuestion qs i) = true ∧
  sameType (getPublishedQuestions qs) = true ∧
  sameType (getNonEmptyQuestions qs) = true ∧
  sameType (publishAll qs) = true.
Proof.
  intros Hsame. split_and!.
  - by apply sameType_filter.
  - by apply sameType_filter.
  - by apply sameType_filter.
  - by apply sameType_publishAll.
Qed.

Lemma sameType_inherited_witness :
  sameType [q_colors; q_blank] = true ∧
  sameType (removeQuestion [q_colors; q_blank] 5) = true ∧
  sameType (getPublishedQuestions [q_colors; q_blank]) = true ∧
  sameType (getNonEmptyQuestions [q_colors; q_blank]) = true ∧
  sameType (publishAll [q_colors; q_blank]) = true.
Proof.
  split; [reflexivity|].
  apply (sameType_inherited [q_colors; q_blank] 5). reflexivity.
Defined.

(** * Id-targeted updates beyond the unique-target case *)

(** ** The first question with the target id *)

Section FirstMatch.
Variables (qs : list Question) (targetId : Z) (k : nat) (q : Question).
Hypothesis Hk : qs !! k = Some q.
Hypothesis Hid : id q = targetId.
Hypothesis Hfirst : ∀ j y, qs !! j = Some y → (j < k)%nat → id y ≠ targetId.

Lemma first_index :
  findIndex (λ question, id question = targetId) qs = Z.of_nat k.
Proof.
  eapply findIndex_found. apply list_find_Some. split_and!; [done..|].
  intros j y Hj Hlt. by apply (Hfirst j y).
Qed.

Lemma first_k_lt : (k < length qs)%nat.
Proof. by apply lookup_lt_Some in Hk. Qed.


Lemma first_rebuilt (q' : Question) :
  (take k qs ++ [q']) ++ drop (S k) qs = <[k := q']> qs.
Proof. rewrite <- app_assoc. simpl. by apply rebuild_is_insert with q. Qed.

Lemma renameQuestionById_first (newName : string) :
  renameQuestionById qs targetId newName =
  Returns (<[k := with_name q newName]> qs).
Proof.
  pose proof first_k_lt. unfold renameQuestionById.
  rewrite first_index, at_index_of_nat, Hk, slice_prefix, slice_from_succ
    by lia.
  by rewrite first_rebuilt.
Qed.

Lemma changeQuestionTypeById_first (newQuestionType : QuestionType) :
  changeQuestionTypeById qs targetId newQuestionType =
  Returns
    (<[k := if decide (type q = multiple_choice_question ∧
                       type q ≠ newQuestionType)
            then with_options (with_type q newQuestionType) []
            else with_type q newQuestionType]> qs).
Proof.
  pose proof first_k_lt. unfold changeQuestionTypeById.
  rewrite first_index, at_index_of_nat, Hk, slice_prefix, slice_from_succ
    by lia.
  case_decide; by rewrite first_rebuilt.
Qed.

Lemma editOption_first_append (newOption : string) :
  editOption qs targetId (-1) newOption =
  Returns (<[k := with_options q (options q ++ [newOption])]> qs).
Proof.
  pose proof first_k_lt. unfold editOption.
  rewrite first_index, at_index_of_nat, Hk, slice_prefix, slice_from_succ
    by lia.
  rewrite decide_True by done. by rewrite first_rebuilt.
Qed.

End FirstMatch.


Lemma with_type_same (q : Question) : with_type q (type q) = q.
Proof. by destruct q. Qed.

(** X10: when several questions have the target id, the updates act on the
    first of them and leave the later ones, like every other question, as
    they are. *)
Theorem updates_act_on_first_match
    (qs : list Question) (targetId : Z) (k : nat) (q : Question)
    (newName newOption : string) (newQuestionType : QuestionType) :
  qs !! k = Some q → id q = targetId →
  (∀ j y, qs !! j = Some y → (j < k)%nat → id y ≠ targetId) →
  (∃ q', renameQuestionById qs targetId newName = Returns (<[k := q']> qs) ∧
         name q' = newName ∧ same_but_name q q') ∧
  (∃ q', changeQuestionTypeById qs targetId newQuestionType =
           Returns (<[k := q']> qs) ∧
         type q' = newQuestionType ∧ same_but_type_and_options q q') ∧
  (∃ q', editOption qs targetId (-1) newOption = Returns (<[k := q']> qs) ∧
         options q' = options q ++ [newOption] ∧ same_but_options q q').
Proof.
  intros Hk Hid Hfirst. split_and!.
  - eexists. split; [by apply renameQuestionById_first|].
    by repeat split.
  - eexists. split; [by apply changeQuestionTypeById_first|].
    case_decide; by repeat split.
  - eexists. split; [by apply editOption_first_append|].
    by repeat split.
Qed.

Lemma updates_act_on_first_match_witness :
  twins !! 1%nat = Some q_colors ∧ id q_colors = 5 ∧
  (∀ j y, twins !! j = Some y → (j < 1)%nat → id y ≠ 5) ∧
  (∃ q', renameQuestionById twins 5 "Hues" = Returns (<[1%nat := q']> twins) ∧
         name q' = "Hues" ∧ same_but_name q_colors q') ∧
  (∃ q', changeQuestionTypeById twins 5 short_answer_question =
           Returns (<[1%nat := q']> twins) ∧
         type q' = short_answer_question ∧
         same_but_type_and_options q_colors q') ∧
  (∃ q', editOption twins 5 (-1) "blue" = Returns (<[1%nat := q']> twins) ∧
         options q' = options q_colors ++ ["blue"] ∧
         same_but_options q_colors q').
Proof.
  assert (Hfirst : ∀ j y, twins !! j = Some y → (j < 1)%nat → id y ≠ 5).
  { intros j y Hj Hlt. destruct j as [|j]; [|lia].
    injection Hj as <-. vm_compute. discriminate. }
  do 2 (split; [reflexivity|]). split; [exact Hfirst|].
  exact (updates_act_on_first_match twins 5 1 q_colors "Hues" "blue"
           short_answer_question eq_refl eq_refl Hfirst).
Defined.



(** X12: changing the first question with the target id to the type it
    already has returns an array equal to the input, options included. *)
Theorem changeQuestionTypeById_same_type
    (qs : list Question) (targetId : Z) (k : nat) (q : Question) :
  qs !! k = Some q → id q = targetId →
  (∀ j y, qs !! j = Some y → (j < k)%nat → id y ≠ targetId) →
  changeQuestionTypeById qs targetId (type q) = Returns qs.
Proof.
  intros Hk Hid Hfirst.
  rewrite (changeQuestionTypeById_first qs targetId k q Hk Hid Hfirst).
  rewrite decide_False by (intros [_ Hne]; by apply Hne).
  by rewrite with_type_same, list_insert_id.
Qed.

Lemma changeQuestionTypeById_same_type_witness :
  sample !! 0%nat = Some q_addition ∧ id q_addition = 1 ∧
  (∀ j y, sample !! j = Some y → (j < 0)%nat → id y ≠ 1) ∧
  changeQuestionTypeById sample 1 (type q_addition) = Returns sample.
Proof.
  assert (Hfirst : ∀ j y, sample !! j = Some y → (j < 0)%nat → id y ≠ 1).
  { intros j y Hj Hlt. lia. }
  do 2 (split; [reflexivity|]). split; [exact Hfirst|].
  exact (changeQuestionTypeById_same_type sample 1 0 q_addition
           eq_refl eq_refl Hfirst).
Defined.

(** X13: when no question has the target id, none of the updates returns
    an array of questions: [renameQuestionById] returns an array holding an
    object that is not a question, and [changeQuestionTypeById] and
    [editOption] throw a TypeError, whatever their other arguments. *)
Theorem updates_without_target
    (qs : list Question) (targetId : Z) (newName newOption : string)
    (newQuestionType : QuestionType) (targetOptionIndex : Z) :
  (∀ q, q ∈ qs → id q ≠ targetId) →
  renameQuestionById qs targetId newName = ReturnsMalformed ∧
  changeQuestionTypeById qs targetId newQuestionType = ThrowsTypeError ∧
  editOption qs targetId targetOptionIndex newOption = ThrowsTypeError.
Proof.
  intros Habsent. split_and!.
  - by apply renameQuestionById_absent.
  - by apply changeQuestionTypeById_absent.
  - by apply editOption_absent.
Qed.

Lemma updates_without_target_witness :
  (∀ q, q ∈ sample → id q ≠ 6) ∧
  renameQuestionById sample 6 "Hues" = ReturnsMalformed ∧
  changeQuestionTypeById sample 6 short_answer_question = ThrowsTypeError ∧
  editOption sample 6 0 "blue" = ThrowsTypeError.
Proof.
  assert (Habsent : ∀ q, q ∈ sample → id q ≠ 6).
  { apply Forall_forall. repeat constructor; vm_compute; discriminate. }
  split; [exact Habsent|].
  exact (updates_without_target sample 6 "Hues" "blue" short_answer_question
           0 Habsent).
Defined.

(** ** Looking up and summing after an update *)

Lemma findQuestion_insert_first (qs : list Question) (t : Z) (k : nat)
    (q q' : Question) :
  qs !! k = Some q → id q' = t →
  (∀ j y, qs !! j = Some y → (j < k)%nat → id y ≠ t) →
  findQuestion (<[k := q']> qs) t = Some q'.
Proof.
  revert k. induction qs as [|x qs IH]; intros k Hk Hid Hfirst; [done|].
  destruct k as [|k]; simpl.
  - rewrite findQuestion_cons. by rewrite decide_True.
  - rewrite findQuestion_cons.
    rewrite decide_False by (apply (Hfirst 0%nat x); [done | lia]).
    apply IH; [done | done |].
    intros j y Hj Hlt. apply (Hfirst (S j) y); [done | lia].
Qed.

Lemma findQuestion_insert_other (qs : list Question) (t j : Z) (k : nat)
    (q q' : Question) :
  qs !! k = Some q → id q = t → id q' = t → j ≠ t →
  findQuestion (<[k := q']> qs) j = findQuestion qs j.
Proof.
  revert k. induction qs as [|x qs IH]; intros k Hk Hq Hq' Hne; [done|].
  destruct k as [|k]; simpl.
  - injection Hk as ->. rewrite !findQuestion_cons.
    by rewrite !decide_False by congruence.
  - rewrite !findQuestion_cons. case_decide; [done|]. by eapply IH.
Qed.

Lemma ids_insert (qs : list Question) (k : nat) (q q' : Question) :
  qs !! k = Some q → id q' = id q → id <$> <[k := q']> qs = id <$> qs.
Proof.
  intros Hk Hid. rewrite list_fmap_insert, Hid.
  apply list_insert_id. by rewrite list_lookup_fmap, Hk.
Qed.

Lemma updated_target_insert (qs : list Question) (t : Z) (k : nat)
    (q q' : Question) :
  qs !! k = Some q → id q = t →
  (∀ j y, qs !! j = Some y → (j < k)%nat → id y ≠ t) →
  id q' = t →
  updated_target qs t (Returns (<[k := q']> qs)) q'.
Proof.
  intros Hk Hid Hfirst Hid'. exists (<[k := q']> qs). split_and!.
  - done.
  - by apply findQuestion_insert_first with q.
  - intros j Hne. by apply findQuestion_insert_other with t q.
  - apply ids_insert with q; [done | congruence].
Qed.

(** X14: after an update of the first question with the target id,
    [findQuestion] returns the updated question under that id and what it
    returned before under every other id, and the ids of the array are
    unchanged. *)
Theorem findQuestion_after_update
    (qs : list Question) (targetId : Z) (k : nat) (q : Question)
    (newName newOption : string) (newQuestionType : QuestionType) :
  qs !! k = Some q → id q = targetId →
  (∀ j y, qs !! j = Some y → (j < k)%nat → id y ≠ targetId) →
  updated_target qs targetId (renameQuestionById qs targetId newName)
    (with_name q newName) ∧
  (∃ q', type q' = newQuestionType ∧
         updated_target qs targetId
           (changeQuestionTypeById qs targetId newQuestionType) q') ∧
  updated_target qs targetId (editOption qs targetId (-1) newOption)
    (with_options q (options q ++ [newOption])).
Proof.
  intros Hk Hid Hfirst. split_and!.
  - rewrite (renameQuestionById_first qs targetId k q Hk Hid Hfirst).
    by apply updated_target_insert with q.
  - rewrite (changeQuestionTypeById_first qs targetId k q Hk Hid Hfirst).
    eexists. split; [|apply updated_target_insert with q; try done].
    + by case_decide.
    + by case_decide.
  - rewrite (editOption_first_append qs targetId k q Hk Hid Hfirst).
    by apply updated_target_insert with q.
Qed.

Lemma findQuestion_after_update_witness :
  twins !! 1%nat = Some q_colors ∧ id q_colors = 5 ∧
  (∀ j y, twins !! j = Some y → (j < 1)%nat → id y ≠ 5) ∧
  updated_target twins 5 (renameQuestionById twins 5 "Hues")
    (with_name q_colors "Hues") ∧
  (∃ q', type q' = short_answer_question ∧
         updated_target twins 5
           (changeQuestionTypeById twins 5 short_answer_question) q') ∧
  updated_target twins 5 (editOption twins 5 (-1) "blue")
    (with_options q_colors (options q_colors ++ ["blue"])).
Proof.
  assert (Hfirst : ∀ j y, twins !! j = Some y → (j < 1)%nat → id y ≠ 5).
  { intros j y Hj Hlt. destruct j as [|j]; [|lia].
    injection Hj as <-. vm_compute. discriminate. }
  do 2 (split; [reflexivity|]). split; [exact Hfirst|].
  exact (findQuestion_after_update twins 5 1 q_colors "Hues" "blue"
           short_answer_question eq_refl eq_refl Hfirst).
Defined.

Lemma sums_insert_from (qs : list Question) (k : nat) (q q' : Question)
    (t : number) :
  qs !! k = Some q → points q' = points q → published q' = published q →
  fold_left (λ total question, number_add total (points question))
    (<[k := q']> qs) t =
  fold_left (λ total question, number_add total (points question)) qs t ∧
  fold_left
    (λ total question,
       if published question then number_add total (points question)
       else total) (<[k := q']> qs) t =
  fold_left
    (λ total question,
       if published question then number_add total (points question)
       else total) qs t.
Proof.
  revert k t. induction qs as [|x qs IH]; intros k t Hk Hpts Hpub; [done|].
  destruct k as [|k]; simpl.
  - injection Hk as ->. by rewrite Hpts, Hpub.
  - split.
    + by destruct (IH k (number_add t (points x)) Hk Hpts Hpub) as [-> _].
    + by destruct
        (IH k (if published x then number_add t (points x) else t)
           Hk Hpts Hpub) as [_ ->].
Qed.

Lemma sums_insert (qs : list Question) (k : nat) (q q' : Question) :
  qs !! k = Some q → points q' = points q → published q' = published q →
  sumPoints (<[k := q']> qs) = sumPoints qs ∧
  sumPublishedPoints (<[k := q']> qs) = sumPublishedPoints qs.
Proof. apply sums_insert_from. Qed.

(** X15: renaming, changing the type of, or appending an option to the
    first question with the target id leaves [sumPoints] and
    [sumPublishedPoints] as they were. *)
Theorem updates_keep_sums
    (qs : list Question) (targetId : Z) (k : nat) (q : Question)
    (newName newOption : string) (newQuestionType : QuestionType) :
  qs !! k = Some q → id q = targetId →
  (∀ j y, qs !! j = Some y → (j < k)%nat → id y ≠ targetId) →
  kept_sums qs (renameQuestionById qs targetId newName) ∧
  kept_sums qs (changeQuestionTypeById qs targetId newQuestionType) ∧
  kept_sums qs (editOption qs targetId (-1) newOption).
Proof.
  intros Hk Hid Hfirst. unfold kept_sums. split_and!.
  - rewrite (renameQuestionById_first qs targetId k q Hk Hid Hfirst).
    eexists. split; [done|]. by apply sums_insert with q.
  - rewrite (changeQuestionTypeById_first qs targetId k q Hk Hid Hfirst).
    eexists. split; [done|]. apply sums_insert with q; by try case_decide.
  - rewrite (editOption_first_append qs targetId k q Hk Hid Hfirst).
    eexists. split; [done|]. by apply sums_insert with q.
Qed.

Lemma updates_keep_sums_witness :
  sample !! 2%nat = Some q_colors ∧ id q_colors = 5 ∧
  (∀ j y, sample !! j = Some y → (j < 2)%nat → id y ≠ 5) ∧
  kept_sums sample (renameQuestionById sample 5 "Hues") ∧
  kept_sums sample (changeQuestionTypeById sample 5 short_answer_question) ∧
  kept_sums sample (editOption sample 5 (-1) "blue").
Proof.
  assert (Hfirst : ∀ j y, sample !! j = Some y → (j < 2)%nat → id y ≠ 5).
  { intros j y Hj Hlt.
    destruct j as [|[|j]]; [| |lia]; injection Hj as <-;
      vm_compute; discriminate. }
  do 2 (split; [reflexivity|]). split; [exact Hfirst|].
  exact (updates_keep_sums sample 5 2 q_colors "Hues" "blue"
           short_answer_question eq_refl eq_refl Hfirst).
Defined.

(** ** What the table shows *)

(** X16: [toCSV] reads only the id, the name, the number of options, the
    points and the published flag: two arrays that agree on these fields,
    position by position, give the same text. *)
Theorem toCSV_same_fields (qs qs' : list Question) :
  Forall2 same_csv_fields qs qs' → toCSV qs = toCSV qs'.
Proof.
  intros Hsame. unfold toCSV. rewrite !toCSV_from. f_equal. f_equal.
  induction Hsame as [|a b l l' (Hid & Hname & Hopts & Hpts & Hpub) _ IH];
    [done|].
  simpl. rewrite IH. f_equal. unfold csv_row.
  by rewrite Hid, Hname, Hopts, Hpts, Hpub.
Qed.

Lemma toCSV_same_fields_witness :
  Forall2 same_csv_fields [q_colors]
    [with_type (with_options q_colors ["a"; "b"; "c"]) short_answer_question] ∧
  toCSV [q_colors] =
  toCSV [with_type (with_options q_colors ["a"; "b"; "c"])
           short_answer_question].
Proof.
  assert (Hsame : Forall2 same_csv_fields [q_colors]
            [with_type (with_options q_colors ["a"; "b"; "c"])
               short_answer_question]).
  { repeat constructor. }
  split; [exact Hsame|].
  exact (toCSV_same_fields _ _ Hsame).
Defined.

(** * The holiday cycler *)

Lemma indexOf_at (order : list Holiday) (i : nat) (h : Holiday) :
  NoDup order → order !! i = Some h → indexOf order h = Z.of_nat i.
Proof.
  intros Hnd Hi. unfold indexOf. eapply findIndex_found.
  apply list_find_Some. split_and!; [done..|].
  intros j y Hj Hlt ->.
  pose proof (NoDup_lookup _ _ _ _ Hnd Hj Hi). lia.
Qed.

Lemma getNextHoliday_at (order : list Holiday) (i : nat) (h : Holiday) :
  NoDup order → order !! i = Some h →
  getNextHoliday h order = order !! ((i + 1) mod length order)%nat.
Proof.
  intros Hnd Hi.
  assert (Hlen : (i < length order)%nat) by (by apply lookup_lt_Some in Hi).
  unfold getNextHoliday, remainder.
  rewrite (indexOf_at order i h Hnd Hi).
  rewrite decide_False by lia.
  rewrite Z.rem_mod_nonneg by lia.
  replace (Z.of_nat i + 1) with (Z.of_nat (i + 1)) by lia.
  rewrite <- Nat2Z.inj_mod. apply at_index_of_nat.
Qed.

(** X17: in an order without repetition, [getNextHoliday] of the holiday
    at index i is the holiday at index i + 1, the last one being followed
    by the first; [n] successive uses lead to index i + n modulo the
    length, so as many uses as the order has entries lead back to the
    start. *)
Theorem getNextHoliday_cycles
    (order : list Holiday) (i n : nat) (h : Holiday) :
  NoDup order → order !! i = Some h →
  getNextHoliday h order = order !! ((i + 1) mod length order)%nat ∧
  advance n order h = order !! ((i + n) mod length order)%nat ∧
  advance (length order) order h = Some h.
Proof.
  intros Hnd Hi.
  assert (Hadv : ∀ m j x, order !! j = Some x →
            advance m order x = order !! ((j + m) mod length order)%nat).
  { induction m as [|m IH]; intros j x Hj.
    - assert ((j < length order)%nat) by (by apply lookup_lt_Some in Hj).
      simpl. by rewrite Nat.add_0_r, Nat.mod_small.
    - simpl. rewrite (getNextHoliday_at order j x Hnd Hj).
      assert (Hlen : (length order ≠ 0)%nat).
      { apply lookup_lt_Some in Hj. lia. }
      destruct (lookup_lt_is_Some_2 order ((j + 1) mod length order)%nat)
        as [x' Hx']; [by apply Nat.mod_upper_bound|].
      rewrite Hx', (IH _ x' Hx').
      rewrite Nat.Div0.add_mod_idemp_l. f_equal. f_equal. lia. }
  split_and!.
  - by apply getNextHoliday_at.
  - by apply Hadv.
  - rewrite (Hadv _ i h Hi).
    assert ((i < length order)%nat) by (by apply lookup_lt_Some in Hi).
    replace (i + length order)%nat with (i + 1 * length order)%nat by lia.
    by rewrite Nat.Div0.mod_add, Nat.mod_small.
Qed.

Lemma getNextHoliday_cycles_witness :
  NoDup yearOrder ∧ yearOrder !! 4%nat = Some Christmas ∧
  getNextHoliday Christmas yearOrder =
    yearOrder !! ((4 + 1) mod length yearOrder)%nat ∧
  advance 3 yearOrder Christmas =
    yearOrder !! ((4 + 3) mod length yearOrder)%nat ∧
  advance (length yearOrder) yearOrder Christmas = Some Christmas.
Proof.
  assert (Hnd : NoDup yearOrder).
  { apply (bool_decide_unpack _ (dec := NoDup_dec _)). vm_compute. exact I. }
  split; [exact Hnd|]. split; [reflexivity|].
  exact (getNextHoliday_cycles yearOrder 4 3 Christmas Hnd eq_refl).
Defined.

(** X18: for a holiday that does not occur in the order, [getNextHoliday]
    returns the first entry of the order, and undefined when the order is
    empty. *)
Theorem getNextHoliday_absent (order : list Holiday) (h : Holiday) :
  h ∉ order → getNextHoliday h order = order !! 0%nat.
Proof.
  intros Hnot. unfold getNextHoliday, remainder, indexOf.
  rewrite findIndex_absent.
  - case_decide as Hlen; simpl.
    + by destruct order.
    + by rewrite Z.rem_0_l by done.
  - apply list_find_None, Forall_forall. intros y Hy ->. by apply Hnot.
Qed.

Lemma getNextHoliday_absent_witness :
  (Easter ∉ [Christmas; Halloween]) ∧
  (getNextHoliday Easter [Christmas; Halloween] =
     [Christmas; Halloween] !! 0%nat).
Proof.
  assert (Hnot : Easter ∉ [Christmas; Halloween]).
  { intros Hin. apply list_elem_of_In in Hin. simpl in Hin.
    destruct Hin as [Heq|[Heq|[]]]; discriminate Heq. }
  split; [exact Hnot|].
  exact (getNextHoliday_absent [Christmas; Halloween] Easter Hnot).
Defined.

Lemma click_defined (h : Holiday) (b : HolidayButton) :
  ∃ h', CycleHoliday_click h b = Some h' ∧ h' ≠ h.
Proof. destruct h, b; eexists; split; by try reflexivity. Qed.

(** X19: in the component, each click stores a holiday, never undefined,
    and one different from the current holiday; so does every sequence of
    clicks, from any holiday. Five clicks on the same button lead back to
    the holiday they started from, and fewer do not. *)
Theorem CycleHoliday_always_a_holiday (h : Holiday) :
  (∀ b, ∃ h', CycleHoliday_click h b = Some h' ∧ h' ≠ h) ∧
  (∀ bs, ∃ h', CycleHoliday_clicks h bs = Some h') ∧
  (∀ order, order = alphabeticalOrder ∨ order = yearOrder →
     advance 5 order h = Some h ∧
     ∀ n, (0 < n < 5)%nat → advance n order h ≠ Some h).
Proof.
  split_and!.
  - apply click_defined.
  - intros bs. revert h. induction bs as [|b bs IH]; intros h.
    + by exists h.
    + destruct (click_defined h b) as (h' & Hclick & _).
      simpl. rewrite Hclick. apply IH.
  - intros order Horder. split.
    + destruct Horder as [-> | ->]; by destruct h.
    + intros n Hn.
      assert (Hcases : n = 1%nat ∨ n = 2%nat ∨ n = 3%nat ∨ n = 4%nat) by lia.
      destruct Horder as [-> | ->];
        destruct Hcases as [-> | [-> | [-> | ->]]];
        destruct h; vm_compute; discriminate.
Qed.

(** X20: the year order follows the calendar, and the heading shows a
    different emoji for each holiday. *)
Theorem CycleHoliday_year_and_emojis :
  getNextHoliday New_Year yearOrder = Some Easter ∧
  getNextHoliday Easter yearOrder = Some Halloween ∧
  getNextHoliday Halloween yearOrder = Some Thanksgiving ∧
  getNextHoliday Thanksgiving yearOrder = Some Christmas ∧
  getNextHoliday Christmas yearOrder = Some New_Year ∧
  yearOrder ≡ₚ alphabeticalOrder ∧
  (∀ h1 h2, holidayEmojis h1 = holidayEmojis h2 ↔ h1 = h2).
Proof.
  split_and!; try reflexivity.
  - apply NoDup_Permutation.
    + apply (bool_decide_unpack _ (dec := NoDup_dec _)). vm_compute. exact I.
    + apply (bool_decide_unpack _ (dec := NoDup_dec _)). vm_compute. exact I.
    + intros h. split; intros _; apply list_elem_of_In; destruct h;
        simpl; tauto.
  - intros h1 h2. split; [|by intros ->].
    destruct h1, h2; intros Heq; try reflexivity; discriminate Heq.
Qed.

(** * The two dice *)

(** X21: the message is Lose exactly when both dice show 1, Win exactly
    when they are equal and not 1, and a message is rendered exactly when
    the dice are equal; none is rendered at the start, and a click that
    leads to Lose rolled a 1. *)
Theorem TwoDice_message (s : TwoDiceState) :
  (resultMessage s = "Lose" ↔ dice1 s = 1 ∧ dice2 s = 1) ∧
  (resultMessage s = "Win" ↔ dice1 s = dice2 s ∧ dice1 s ≠ 1) ∧
  (message_rendered s = true ↔ dice1 s = dice2 s) ∧
  message_rendered TwoDice_initial = false ∧
  (∀ b rolled, resultMessage (TwoDice_click s b rolled) = "Lose" →
     rolled = 1).
Proof.
  assert (Hlose : ∀ t, resultMessage t = "Lose" ↔ dice1 t = 1 ∧ dice2 t = 1).
  { intros t. unfold resultMessage. repeat case_decide; split; try done.
    - intros _. split; [done | congruence].
    - intros [? ?]. congruence.
    - intros [? ?]. congruence. }
  split_and!.
  - apply Hlose.
  - unfold resultMessage. repeat case_decide; split; try done.
    + by intros [_ ?].
    + by intros [? _].
  - unfold message_rendered, resultMessage.
    rewrite bool_decide_eq_true. repeat case_decide; split; done.
  - reflexivity.
  - intros b rolled Hmsg. apply Hlose in Hmsg as [H1 H2].
    by destruct b.
Qed.

(** * The shove box *)

(** X22: after n clicks on the button the box is at 10 + 4 n, so that each
    click moves it to the right by 4, and its left margin is that number
    followed by px. *)
Theorem ShoveBox_position (n : nat) :
  Nat.iter n ShoveBoxButton_click ShoveBox_initial = 10 + 4 * Z.of_nat n ∧
  Nat.iter n ShoveBoxButton_click ShoveBox_initial <
    Nat.iter (S n) ShoveBoxButton_click ShoveBox_initial ∧
  marginLeft (Nat.iter n ShoveBoxButton_click ShoveBox_initial) =
    String_of_number (10 + 4 * Z.of_nat n) +:+ "px".
Proof.
  assert (Hpos : ∀ m, Nat.iter m ShoveBoxButton_click ShoveBox_initial =
                      10 + 4 * Z.of_nat m).
  { induction m as [|m IH]; [done|].
    rewrite Nat.iter_succ, IH. unfold ShoveBoxButton_click. lia. }
  split_and!.
  - apply Hpos.
  - rewrite !Hpos. lia.
  - by rewrite Hpos.
Qed.
